(** * orsted: single-node Kubernetes bootstrap (main.go)

    A shallow embedding of [main.go].  The program is one straight-line
    [main] that talks to external collaborators (processes started through
    os/exec, the Kubernetes client, the Helm client, the file system, the
    network stack, the clock and the logger).  Every collaborator call is
    answered by an explicit environment [Env]; the program threads a state
    holding the interaction trace, the log and the package-level variable
    [kubeConfig]. *)

From Stdlib Require Import String Ascii List ZArith Bool Arith Lia.
Import ListNotations.
Local Open Scope string_scope.
Local Open Scope list_scope.

(** ** Go values used by the program *)

(** A Go [error].  [ExitError] is os/exec's [*exec.ExitError]; every other
    error is kept by its message.  The nil error is [None : option error]. *)
Inductive error : Type :=
| ExitError (code : Z)
| ErrMsg (msg : string).

(** [time.Duration]: a count of nanoseconds. *)
Definition Duration := Z.
Definition Second : Duration := 1000000000%Z.
Definition Minute : Duration := (60 * Second)%Z.

(** [repo.Entry] as far as [main] fills it. *)
Record Entry : Type := mkEntry { entry_Name : string; entry_URL : string }.

(** [helmclient.ChartSpec] as far as [main] fills it. *)
Record ChartSpec : Type := mkChartSpec {
  ReleaseName : string;
  ChartName : string;
  Namespace : string;
  UpgradeCRDs : bool;
  Wait : bool;
  WaitForJobs : bool;
  Timeout : Duration;
  Version : string;
  ValuesYaml : string
}.

(** [core.Namespace]: type meta, object meta (name and labels); the spec and
    the status are the empty structs. *)
Record NamespaceObj : Type := mkNamespace {
  ns_Kind : string;
  ns_APIVersion : string;
  ns_Name : string;
  ns_Labels : list (string * string)
}.

(** [helmclient.KubeConfClientOptions] with the embedded [helmclient.Options]. *)
Record KubeConfClientOptions : Type := mkOptions {
  opt_Namespace : string;
  opt_RepositoryCache : string;
  opt_RepositoryConfig : string;
  opt_Debug : bool;
  opt_Linting : bool;
  opt_KubeContext : string;
  opt_KubeConfig : list Byte.byte
}.

(** A [helmclient.Client] handle is known by the options it was built from. *)
Record HelmClient : Type := mkHelmClient { hc_options : KubeConfClientOptions }.

(** The typed cluster client: known by the kubeconfig path it was built from. *)
Record RestConfig : Type := mkRestConfig { rc_master : string; rc_path : string }.
Record Clientset : Type := mkClientset { cs_config : RestConfig }.

(** A pod of a listing; only the number of items matters to the program. *)
Record Pod : Type := mkPod { pod_Name : string }.

(** ** os/exec: processes and writers *)

(** The two output streams of a child process. *)
Inductive Stream : Type := StdoutS | StderrS.

(** What a started process does, as the operating system decides it: whether
    it could be launched at all, the chunks it writes (in the order they are
    written) and its exit status. *)
Record ProcRun : Type := mkProcRun {
  pr_start : option error;
  pr_writes : list (Stream * string);
  pr_exit : Z
}.

(** [strings.Builder] values live in a heap and are shared through their
    address: [cmd.Stdout = &out] and [cmd.Stderr = &out] alias one builder. *)
Definition Addr := nat.
Definition Heap := list (Addr * string).

Fixpoint Builder_String (h : Heap) (a : Addr) : string :=
  match h with
  | [] => ""
  | (b, s) :: h' => if Nat.eqb a b then s else Builder_String h' a
  end.

Fixpoint Builder_Write (h : Heap) (a : Addr) (p : string) : Heap :=
  match h with
  | [] => []
  | (b, s) :: h' =>
      if Nat.eqb a b then (b, (s ++ p)%string) :: h' else (b, s) :: Builder_Write h' a p
  end.

(** [exec.Cmd]: a nil writer discards the stream. *)
Record Cmd : Type := mkCmd {
  cmd_Path : string;
  cmd_Args : list string;
  cmd_Stdout : option Addr;
  cmd_Stderr : option Addr
}.

Definition exec_Command (command : string) (args : list string) : Cmd :=
  mkCmd command args None None.

Definition writer_of (c : Cmd) (s : Stream) : option Addr :=
  match s with StdoutS => cmd_Stdout c | StderrS => cmd_Stderr c end.

Definition deliver (c : Cmd) (h : Heap) (w : Stream * string) : Heap :=
  match writer_of c (fst w) with
  | Some a => Builder_Write h a (snd w)
  | None => h
  end.

(** [cmd.Run] of os/exec: start the process, copy what it writes to the writers
    of the command, wait for it.  The error is nil when the process could be
    started and exited with status zero. *)
Definition Cmd_Run (c : Cmd) (p : ProcRun) (h : Heap) : Heap * option error :=
  match pr_start p with
  | Some e => (h, Some e)
  | None =>
      (fold_left (deliver c) (pr_writes p) h,
       if Z.eqb (pr_exit p) 0 then None else Some (ExitError (pr_exit p)))
  end.

(** [RunCommand] on the process behaviour [p]:
<<
    var out strings.Builder
    cmd := exec.Command(command, args...)
    cmd.Stdout = &out
    cmd.Stderr = &out
    err := cmd.Run()
    return out.String(), err
>> *)
Definition run_on (command : string) (args : list string) (p : ProcRun)
  : string * option error :=
  let out : Addr := 0 in
  let h : Heap := [(out, "")] in
  let cmd := exec_Command command args in
  let cmd := mkCmd (cmd_Path cmd) (cmd_Args cmd) (Some out) (cmd_Stderr cmd) in
  let cmd := mkCmd (cmd_Path cmd) (cmd_Args cmd) (cmd_Stdout cmd) (Some out) in
  let '(h', err) := Cmd_Run cmd p h in
  (Builder_String h' out, err).

(** Everything the process wrote, on either stream, in the order written. *)
Definition merged_output (p : ProcRun) : string :=
  match pr_start p with
  | Some _ => ""
  | None => String.concat "" (map snd (pr_writes p))
  end.

(** ** package strings *)

Fixpoint drop (n : nat) (s : string) : string :=
  match n, s with
  | O, _ => s
  | S n', String _ s' => drop n' s'
  | S _, EmptyString => EmptyString
  end.

Fixpoint take (n : nat) (s : string) : string :=
  match n, s with
  | O, _ => EmptyString
  | S n', String c s' => String c (take n' s')
  | S _, EmptyString => EmptyString
  end.

(** [strings.Index]: the position of the first occurrence of [substr] in
    [s]; [None] stands for Go's [-1]. *)
Fixpoint Index (s substr : string) : option nat :=
  if String.prefix substr s then Some 0
  else match s with
       | EmptyString => None
       | String _ s' => option_map S (Index s' substr)
       end.

(** [strings.Contains]. *)
Definition Contains (s substr : string) : bool :=
  match Index s substr with Some _ => true | None => false end.

(** Replacement of the first [k] non-overlapping occurrences of a non-empty
    [old], scanning from the left as [strings.Replace] does. *)
Fixpoint replace_upto (k : nat) (s old new : string) : string :=
  match k with
  | O => s
  | S k' =>
      match Index s old with
      | None => s
      | Some j =>
          (take j s ++ new ++ replace_upto k' (drop (j + String.length old) s) old new)%string
      end
  end.

(** Empty [old]: [new] is inserted at the start and after each character,
    at most [k] times (strings of one-byte characters). *)
Fixpoint interleave (k : nat) (s new : string) : string :=
  match k with
  | O => s
  | S k' =>
      (new ++ match s with
              | EmptyString => EmptyString
              | String c s' => String c (interleave k' s' new)
              end)%string
  end.

(** [strings.Replace(s, old, new, n)]: a copy of [s] with the first [n]
    non-overlapping instances of [old] replaced by [new]; no limit when
    [n < 0]. *)
Definition Replace (s old new : string) (n : Z) : string :=
  if (String.eqb old new || Z.eqb n 0)%bool then s
  else
    let k := if Z.ltb n 0 then S (String.length s) else Z.to_nat n in
    match old with
    | EmptyString => interleave k s new
    | String _ _ => replace_upto k s old new
    end.

(** ** Interaction with the collaborators *)

(** One argument of a [log.Printf]/[log.Fatalf] call.  Format strings are
    kept as the source writes them, escape sequences included. *)
Inductive Arg : Type :=
| AStr (s : string)
| AErr (err : option error).

Inductive LogEntry : Type :=
| LPrintln (s : string)
| LPrintf (format : string) (args : list Arg)
| LFatalf (format : string) (args : list Arg).

(** A collaborator call together with what it returned. *)
Inductive Event : Type :=
| ERunCommand (command : string) (args : list string) (out : string) (err : option error)
| EBuildConfigFromFlags (master path : string) (err : option error)
| ENewForConfig (cfg : RestConfig) (err : option error)
| EPodsList (cs : Clientset) (ns : string) (items : list Pod) (err : option error)
| ESleep (d : Duration)
| EReadFile (path : string) (data : list Byte.byte) (err : option error)
| ENewClientFromKubeConf (opts : KubeConfClientOptions) (err : option error)
| EAddOrUpdateChartRepo (c : HelmClient) (entry : Entry) (err : option error)
| EInstallOrUpgradeChart (c : HelmClient) (spec : ChartSpec) (err : option error)
| EInstallChart (c : HelmClient) (spec : ChartSpec) (err : option error)
| ENamespacesCreate (cs : Clientset) (ns : NamespaceObj) (err : option error)
| EDial (network address : string) (localIP : string) (err : option error)
| EConnClose (err : option error).

Inductive Kind : Type :=
| KRunCommand | KBuildConfig | KNewForConfig | KPodsList | KSleep | KReadFile
| KNewClient | KAddRepo | KInstallOrUpgrade | KInstall | KNamespacesCreate
| KDial | KConnClose.

Definition kind_of (e : Event) : Kind :=
  match e with
  | ERunCommand _ _ _ _ => KRunCommand
  | EBuildConfigFromFlags _ _ _ => KBuildConfig
  | ENewForConfig _ _ => KNewForConfig
  | EPodsList _ _ _ _ => KPodsList
  | ESleep _ => KSleep
  | EReadFile _ _ _ => KReadFile
  | ENewClientFromKubeConf _ _ => KNewClient
  | EAddOrUpdateChartRepo _ _ _ => KAddRepo
  | EInstallOrUpgradeChart _ _ _ => KInstallOrUpgrade
  | EInstallChart _ _ _ => KInstall
  | ENamespacesCreate _ _ _ => KNamespacesCreate
  | EDial _ _ _ _ => KDial
  | EConnClose _ => KConnClose
  end.

Definition Kind_eqb (a b : Kind) : bool :=
  match a, b with
  | KRunCommand, KRunCommand | KBuildConfig, KBuildConfig
  | KNewForConfig, KNewForConfig | KPodsList, KPodsList | KSleep, KSleep
  | KReadFile, KReadFile | KNewClient, KNewClient | KAddRepo, KAddRepo
  | KInstallOrUpgrade, KInstallOrUpgrade | KInstall, KInstall
  | KNamespacesCreate, KNamespacesCreate | KDial, KDial
  | KConnClose, KConnClose => true
  | _, _ => false
  end.

(** How many calls of kind [k] the trace holds. *)
Definition ncalls (k : Kind) (tr : list Event) : nat :=
  length (filter (fun e => Kind_eqb (kind_of e) k) tr).

(** The environment: the answer of every collaborator to its [n]-th call
    (counted from 0, per operation).  Every call is answered: a call that
    never returns (a child process that does not exit, for which [cmd.Run]
    sets no time limit) is outside the environments described here. *)
Record Env : Type := mkEnv {
  spawn : nat -> string -> list string -> ProcRun;
  build_config : nat -> string -> string -> option error;
  new_for_config : nat -> RestConfig -> option error;
  pods_list : nat -> string -> list Pod * option error;
  read_file : nat -> string -> list Byte.byte * option error;
  new_client : nat -> KubeConfClientOptions -> option error;
  add_repo : nat -> HelmClient -> Entry -> option error;
  install_or_upgrade : nat -> HelmClient -> ChartSpec -> option error;
  install_chart : nat -> HelmClient -> ChartSpec -> option error;
  namespaces_create : nat -> NamespaceObj -> option error;
  net_dial : nat -> string -> string -> string * option error;
  conn_close : nat -> option error
}.

(** The state threaded through the program: the trace of collaborator
    calls, the log, and the package-level [var kubeConfig = []byte{}]. *)
Record State : Type := mkState {
  trace : list Event;
  logs : list LogEntry;
  kubeConfig : list Byte.byte
}.

Definition init : State := mkState [] [] [].

(** How a computation ends: with a value, with [os.Exit], or still polling
    when the fuel of the model ran out. *)
Inductive Outcome (A : Type) : Type :=
| Ret (a : A)
| Exit (code : Z)
| Diverge.
Arguments Ret {A} a.
Arguments Exit {A} code.
Arguments Diverge {A}.

Definition M (A : Type) : Type := State -> Outcome A * State.

Definition ret {A} (a : A) : M A := fun st => (Ret a, st).

Definition bind {A B} (m : M A) (f : A -> M B) : M B :=
  fun st =>
    match m st with
    | (Ret a, st') => f a st'
    | (Exit c, st') => (Exit c, st')
    | (Diverge, st') => (Diverge, st')
    end.

Declare Scope go_scope.
Delimit Scope go_scope with go.
Notation "x <- m ;; k" := (bind m (fun x => k))
  (at level 61, m at next level, right associativity) : go_scope.
Notation "' pat <- m ;; k" := (bind m (fun x => match x with pat => k end))
  (at level 61, pat pattern, m at next level, right associativity) : go_scope.
Notation "m ;; k" := (bind m (fun _ => k))
  (at level 61, right associativity) : go_scope.
Local Open Scope go_scope.

Definition emit (e : Event) : M unit :=
  fun st => (Ret tt, mkState (trace st ++ [e]) (logs st) (kubeConfig st)).

Definition log (l : LogEntry) : M unit :=
  fun st => (Ret tt, mkState (trace st) (logs st ++ [l]) (kubeConfig st)).

Definition history : M (list Event) := fun st => (Ret (trace st), st).

Definition Println (s : string) : M unit := log (LPrintln s).
Definition Printf (format : string) (args : list Arg) : M unit :=
  log (LPrintf format args).

(** [log.Fatalf]: print, then [os.Exit(1)]. *)
Definition Fatalf {A} (format : string) (args : list Arg) : M A :=
  fun st => (Exit 1%Z, mkState (trace st) (logs st ++ [LFatalf format args]) (kubeConfig st)).

Definition isErr (err : option error) : bool :=
  match err with Some _ => true | None => false end.

(** [if cond { body }]. *)
Definition when (cond : bool) (body : M unit) : M unit :=
  if cond then body else ret tt.

Section Program.

(** The embedded value files ([//go:embed values/*.yaml]); their contents
    are build inputs of the program. *)
Variables CiliumYaml RookOperatorYaml CephClusterYaml GitOpsYaml : string.

Variable env : Env.

(** *** Collaborator calls *)

Definition RunCommand (command : string) (args : list string)
  : M (string * option error) :=
  tr <- history ;;
  let r := run_on command args (spawn env (ncalls KRunCommand tr) command args) in
  emit (ERunCommand command args (fst r) (snd r)) ;;
  ret r.

Definition BuildConfigFromFlags (master path : string)
  : M (RestConfig * option error) :=
  tr <- history ;;
  let err := build_config env (ncalls KBuildConfig tr) master path in
  emit (EBuildConfigFromFlags master path err) ;;
  ret (mkRestConfig master path, err).

Definition NewForConfig (cfg : RestConfig) : M (Clientset * option error) :=
  tr <- history ;;
  let err := new_for_config env (ncalls KNewForConfig tr) cfg in
  emit (ENewForConfig cfg err) ;;
  ret (mkClientset cfg, err).

Definition PodsList (cs : Clientset) (ns : string) : M (list Pod * option error) :=
  tr <- history ;;
  let r := pods_list env (ncalls KPodsList tr) ns in
  emit (EPodsList cs ns (fst r) (snd r)) ;;
  ret r.

Definition Sleep (d : Duration) : M unit := emit (ESleep d).

Definition ReadFile (path : string) : M (list Byte.byte * option error) :=
  tr <- history ;;
  let r := read_file env (ncalls KReadFile tr) path in
  emit (EReadFile path (fst r) (snd r)) ;;
  ret r.

Definition NewClientFromKubeConf (opts : KubeConfClientOptions)
  : M (HelmClient * option error) :=
  tr <- history ;;
  let err := new_client env (ncalls KNewClient tr) opts in
  emit (ENewClientFromKubeConf opts err) ;;
  ret (mkHelmClient opts, err).

Definition AddOrUpdateChartRepo (c : HelmClient) (entry : Entry) : M (option error) :=
  tr <- history ;;
  let err := add_repo env (ncalls KAddRepo tr) c entry in
  emit (EAddOrUpdateChartRepo c entry err) ;;
  ret err.

Definition InstallOrUpgradeChart (c : HelmClient) (spec : ChartSpec) : M (option error) :=
  tr <- history ;;
  let err := install_or_upgrade env (ncalls KInstallOrUpgrade tr) c spec in
  emit (EInstallOrUpgradeChart c spec err) ;;
  ret err.

Definition InstallChart (c : HelmClient) (spec : ChartSpec) : M (option error) :=
  tr <- history ;;
  let err := install_chart env (ncalls KInstall tr) c spec in
  emit (EInstallChart c spec err) ;;
  ret err.

Definition NamespacesCreate (cs : Clientset) (ns : NamespaceObj) : M (option error) :=
  tr <- history ;;
  let err := namespaces_create env (ncalls KNamespacesCreate tr) ns in
  emit (ENamespacesCreate cs ns err) ;;
  ret err.

Definition Dial (network address : string) : M (string * option error) :=
  tr <- history ;;
  let r := net_dial env (ncalls KDial tr) network address in
  emit (EDial network address (fst r) (snd r)) ;;
  ret r.

(** [conn.Close()], deferred in [GetDefaultIP]; it returns an error, which
    the [defer] statement drops. *)
Definition ConnClose : M (option error) :=
  tr <- history ;;
  let err := conn_close env (ncalls KConnClose tr) in
  emit (EConnClose err) ;;
  ret err.

(** *** Helpers of main.go *)

Definition admin_conf : string := "/etc/kubernetes/admin.conf".

Definition getKubeConfig : M (list Byte.byte) := fun st => (Ret (kubeConfig st), st).
Definition setKubeConfig (b : list Byte.byte) : M unit :=
  fun st => (Ret tt, mkState (trace st) (logs st) b).

Definition initKubeConf : M unit :=
  kc <- getKubeConfig ;;
  when (Nat.eqb (length kc) 0)
    ('(kubeConfigI, err) <- ReadFile admin_conf ;;
     when (isErr err) (Fatalf "Failed to read kubeconfig file: %s\n" [AErr err]) ;;
     setKubeConfig kubeConfigI).

Definition helmClientForNs (ns : string) : M (HelmClient * option error) :=
  initKubeConf ;;
  kc <- getKubeConfig ;;
  let kubeConfOptions :=
    mkOptions ns "/tmp/.helmcache" "/tmp/.helmrepo" false true "" kc in
  NewClientFromKubeConf kubeConfOptions.

Definition InstallSpecWithNSClient (ns : string) (spec : ChartSpec) : M (option error) :=
  '(client, err) <- helmClientForNs ns ;;
  match err with
  | Some _ => ret err
  | None =>
      err <- InstallChart client spec ;;
      match err with
      | Some _ => ret err
      | None => ret None
      end
  end.

Definition GetDefaultIP : M string :=
  '(localIP, err) <- Dial "udp" "1.1.1.1:80" ;;
  when (isErr err) (Fatalf "Failed to get default ip: %s" [AErr err]) ;;
  ConnClose ;;
  ret localIP.

(** *** The readiness loop of [main] *)

Definition poll_interval : Duration := (Second * 10)%Z.

Fixpoint poll (fuel : nat) (k8sClient : Clientset) : M unit :=
  match fuel with
  | O => fun st => (Diverge, st)
  | S fuel' =>
      '(pods, err) <- PodsList k8sClient "kube-system" ;;
      if (isErr err || Nat.eqb (length pods) 0)%bool then
        Printf "Kubernetes not yet ready: %s\n" [AErr err] ;;
        Sleep poll_interval ;;
        poll fuel' k8sClient
      else
        Println "Kubernetes ready"
  end.

(** *** Constants of [main] *)

Definition bash_c (script : string) : list string := ["-c"; script].

Definition systemctl_script : string := "systemctl enable --now kubelet crio".
Definition kubeadm_args : list string := ["init"; "--config"; "/root/clusterconfig.yaml"].
Definition untaint_script : string :=
  "kubectl taint nodes $(hostname -f) node-role.kubernetes.io/control-plane=master:NoSchedule- --kubeconfig='/etc/kubernetes/admin.conf'".
Definition gateway_script : string :=
  "kubectl apply --kubeconfig='/etc/kubernetes/admin.conf' -f https://raw.githubusercontent.com/kubernetes-sigs/gateway-api/v0.7.1/config/crd/standard/gateway.networking.k8s.io_gatewayclasses.yaml -f https://raw.githubusercontent.com/kubernetes-sigs/gateway-api/v0.7.1/config/crd/standard/gateway.networking.k8s.io_gateways.yaml -f https://raw.githubusercontent.com/kubernetes-sigs/gateway-api/v0.7.1/config/crd/standard/gateway.networking.k8s.io_httproutes.yaml -f https://raw.githubusercontent.com/kubernetes-sigs/gateway-api/v0.7.1/config/crd/standard/gateway.networking.k8s.io_referencegrants.yaml -f https://raw.githubusercontent.com/kubernetes-sigs/gateway-api/v0.7.1/config/crd/experimental/gateway.networking.k8s.io_tlsroutes.yaml".
Definition rook_overrides_script : string :=
  "kubectl apply --kubeconfig='/etc/kubernetes/admin.conf' -f /root/rook-overrides.yaml".
Definition default_policies_script : string :=
  "kubectl apply --kubeconfig='/etc/kubernetes/admin.conf' -f /root/default-policies.yaml".

Definition ciliumRepo : Entry := mkEntry "cilium" "https://helm.cilium.io/".
Definition kyvernoRepo : Entry := mkEntry "kyverno" "https://kyverno.github.io/kyverno/".
Definition rookRepo : Entry := mkEntry "rook" "https://charts.rook.io/release".
Definition gitopsRepo : Entry := mkEntry "gitops" "https://helm.gitops.weave.works/".

Definition ciliumSpec (defaultIp : string) : ChartSpec :=
  {| ReleaseName := "cilium";
     ChartName := "cilium/cilium";
     Namespace := "kube-system";
     UpgradeCRDs := true;
     Wait := true;
     WaitForJobs := true;
     Timeout := (Minute * 7)%Z;
     Version := "v1.14.0";
     ValuesYaml := Replace CiliumYaml "K8SHOST" defaultIp 1 |}.

Definition kyvNsSpec : NamespaceObj := mkNamespace "namespace" "v1" "kyverno" [].

Definition kyvernoSpec : ChartSpec :=
  {| ReleaseName := "kyverno";
     ChartName := "kyverno/kyverno";
     Namespace := "kyverno";
     UpgradeCRDs := true;
     Wait := true;
     WaitForJobs := true;
     Timeout := (Minute * 4)%Z;
     Version := "";
     ValuesYaml := "" |}.

Definition rookNsSpec : NamespaceObj :=
  mkNamespace "namespace" "v1" "rook-ceph"
    [("pod-security.kubernetes.io/enforce", "privileged")].

Definition rookOpSpec : ChartSpec :=
  {| ReleaseName := "rook-ceph";
     ChartName := "rook/rook-ceph";
     Namespace := "rook-ceph";
     UpgradeCRDs := true;
     Wait := true;
     WaitForJobs := true;
     Timeout := (Minute * 2)%Z;
     Version := "";
     ValuesYaml := RookOperatorYaml |}.

Definition rookClusterSpec : ChartSpec :=
  {| ReleaseName := "rook-ceph-cluster";
     ChartName := "rook/rook-ceph-cluster";
     Namespace := "rook-ceph";
     UpgradeCRDs := true;
     Wait := true;
     WaitForJobs := true;
     Timeout := (Minute * 5)%Z;
     Version := "";
     ValuesYaml := CephClusterYaml |}.

Definition gitopsNsSpec : NamespaceObj := mkNamespace "namespace" "v1" "weave-gitops" [].

Definition gitopsSpec : ChartSpec :=
  {| ReleaseName := "weave-gitops";
     ChartName := "gitops/weave-gitops";
     Namespace := "weave-gitops";
     UpgradeCRDs := false;
     Wait := true;
     WaitForJobs := true;
     Timeout := (Minute * 15)%Z;
     Version := "";
     ValuesYaml := GitOpsYaml |}.

(** *** main *)

Definition main (fuel : nat) : M unit :=
  Println "We're in!" ;;
  Println "Enabling and starting Kubelet and Cri-o" ;;
  '(enableKubeletOut, err) <- RunCommand "bash" (bash_c systemctl_script) ;;
  when (isErr err)
    (Printf "Systemctl output: %s\n" [AStr enableKubeletOut] ;;
     Fatalf "Unable to enable kubelet and crio: %s\n" [AErr err]) ;;
  Println "Kubelet and Cri-o started" ;;
  Println "Initializing Kubernetes Cluster" ;;
  '(kubeadmOut, err) <- RunCommand "kubeadm" kubeadm_args ;;
  when (isErr err)
    (Printf "Failed to run kubeadm: %s\n" [AErr err] ;;
     Fatalf "Kubeadm output: %s\n" [AStr kubeadmOut]) ;;
  '(k8sConf, err) <- BuildConfigFromFlags "" admin_conf ;;
  when (isErr err) (Fatalf "Failed to parse kubernetes config: %s\n" [AErr err]) ;;
  '(k8sClient, err) <- NewForConfig k8sConf ;;
  when (isErr err) (Fatalf "Failed to create kubernetes client: %s\n" [AErr err]) ;;
  poll fuel k8sClient ;;
  Println "Untainting node" ;;
  '(clearTaintOut, err) <- RunCommand "bash" (bash_c untaint_script) ;;
  when (isErr err)
    (Printf "Failed to clear master node taint: %s\n" [AErr err] ;;
     Fatalf "Kubectl output: %s\n" [AStr clearTaintOut]) ;;
  Println "Creating Gateway CRDs" ;;
  '(gatewayCRDsOut, err) <- RunCommand "bash" (bash_c gateway_script) ;;
  when (isErr err)
    (Printf "Failed to apply gateway CRDs" [] ;;
     Fatalf "Kubectl output: %s\n" [AStr gatewayCRDsOut]) ;;
  Println "Adding Helm Repos" ;;
  '(helmClient, err) <- helmClientForNs "default" ;;
  when (isErr err) (Fatalf "Failed to create helm client: %s\n" [AErr err]) ;;
  err <- AddOrUpdateChartRepo helmClient ciliumRepo ;;
  when (isErr err) (Fatalf "Failed to add Cilium Helm chart: %s\n" [AErr err]) ;;
  err <- AddOrUpdateChartRepo helmClient kyvernoRepo ;;
  when (isErr err) (Fatalf "Failed to add Kyverno Helm chart: %s\n" [AErr err]) ;;
  err <- AddOrUpdateChartRepo helmClient rookRepo ;;
  when (isErr err) (Fatalf "Failed to add Rook Ceph Helm chart: %s\n" [AErr err]) ;;
  err <- AddOrUpdateChartRepo helmClient gitopsRepo ;;
  when (isErr err) (Fatalf "Failed to add Weave GitOps Helm chart: %s\n" [AErr err]) ;;
  defaultIp <- GetDefaultIP ;;
  Printf "Default IP: %s\n" [AStr defaultIp] ;;
  Println "Deploying Cilium" ;;
  err <- InstallOrUpgradeChart helmClient (ciliumSpec defaultIp) ;;
  when (isErr err) (Fatalf "Failed to install Cilium: %s\n" [AErr err]) ;;
  Println "Creating Kyverno namespace" ;;
  err <- NamespacesCreate k8sClient kyvNsSpec ;;
  when (isErr err) (Fatalf "Failed to create kyverno namespace: %s\n" [AErr err]) ;;
  Println "Deploying Kyverno" ;;
  err <- InstallSpecWithNSClient "kyverno" kyvernoSpec ;;
  when (isErr err) (Fatalf "Failed to install Kyverno: %s\n" [AErr err]) ;;
  Println "Creating rook-ceph namespace" ;;
  err <- NamespacesCreate k8sClient rookNsSpec ;;
  when (isErr err) (Fatalf "Failed to create rook-ceph namespace: %s\n" [AErr err]) ;;
  '(rookOROut, err) <- RunCommand "bash" (bash_c rook_overrides_script) ;;
  when (isErr err)
    (Printf "Failed to create rook overrides: %s\n" [AErr err] ;;
     Fatalf "Kubectl output: %s\n" [AStr rookOROut]) ;;
  '(rookHelm, err) <- helmClientForNs "rook-ceph" ;;
  when (isErr err) (Fatalf "Failed to create rook helm client" []) ;;
  Println "Deploying Rook Ceph operator" ;;
  err <- InstallOrUpgradeChart rookHelm rookOpSpec ;;
  when (isErr err) (Fatalf "Failed to install rook-ceph operator: %s\n" [AErr err]) ;;
  Println "Deploying Rook Ceph cluster" ;;
  err <- InstallOrUpgradeChart rookHelm rookClusterSpec ;;
  when (isErr err) (Fatalf "Failed to install rook-ceph-cluster: %s\n" [AErr err]) ;;
  Println "Creating weave-gitops namespace" ;;
  err <- NamespacesCreate k8sClient gitopsNsSpec ;;
  when (isErr err) (Fatalf "Failed to create weave-gitops namespace: %s\n" [AErr err]) ;;
  Println "Deploying Weave GitOps" ;;
  err <- InstallSpecWithNSClient "weave-gitops" gitopsSpec ;;
  when (isErr err) (Fatalf "Failed to install weave-gitops: %s\n" [AErr err]) ;;
  Println "Installing default policies" ;;
  '(defPolOut, err) <- RunCommand "bash" (bash_c default_policies_script) ;;
  when (isErr err)
    (Printf "Failed to install default kyverno policies: %s\n" [AErr err] ;;
     Fatalf "Kubectl output: %s\n" [AStr defPolOut]) ;;
  Println "Successfully initialized Kubernetes Cluster".

End Program.

(** ** The readiness prober *)

(** Events of the readiness loop. *)
Definition is_polling (e : Event) : bool :=
  match e with
  | EPodsList _ _ _ _ | ESleep _ => true
  | _ => false
  end.

Section ProberTrace.

Variable env : Env.
Variable cs : Clientset.

(** The prober's test on one listing: [err != nil || len(pods.Items) == 0]. *)
Definition not_ready (r : list Pod * option error) : bool :=
  (isErr (snd r) || Nat.eqb (length (fst r)) 0)%bool.

Definition listing (i : nat) : list Pod * option error := pods_list env i "kube-system".

Definition list_event (i : nat) : Event :=
  EPodsList cs "kube-system" (fst (listing i)) (snd (listing i)).

(** A failed attempt: the listing, then the sleep. *)
Definition retry_events (c n : nat) : list Event :=
  flat_map (fun i => [list_event i; ESleep poll_interval]) (seq c n).

Definition retry_logs (c n : nat) : list LogEntry :=
  map (fun i => LPrintf "Kubernetes not yet ready: %s\n" [AErr (snd (listing i))]) (seq c n).

End ProberTrace.

(** ** Environments of concrete runs *)

(** An environment in which every collaborator succeeds at once. *)
Definition proc_ok (text : string) : ProcRun := mkProcRun None [(StdoutS, text)] 0.

Definition env_ok : Env :=
  {| spawn := fun _ _ _ => proc_ok "ok";
     build_config := fun _ _ _ => None;
     new_for_config := fun _ _ => None;
     pods_list := fun _ _ => ([mkPod "etcd"], None);
     read_file := fun _ _ => ([Byte.x61], None);
     new_client := fun _ _ => None;
     add_repo := fun _ _ _ => None;
     install_or_upgrade := fun _ _ _ => None;
     install_chart := fun _ _ _ => None;
     namespaces_create := fun _ _ => None;
     net_dial := fun _ _ _ => ("10.0.0.5", None);
     conn_close := fun _ => None |}.

(** An environment whose first [N] pod listings fail with a transport error
    and whose later ones hold a pod. *)
Definition env_late (N : nat) : Env :=
  {| spawn := spawn env_ok;
     build_config := build_config env_ok;
     new_for_config := new_for_config env_ok;
     pods_list := fun i _ =>
       if Nat.ltb i N then ([], Some (ErrMsg "connection refused"))
       else ([mkPod "etcd"], None);
     read_file := read_file env_ok;
     new_client := new_client env_ok;
     add_repo := add_repo env_ok;
     install_or_upgrade := install_or_upgrade env_ok;
     install_chart := install_chart env_ok;
     namespaces_create := namespaces_create env_ok;
     net_dial := net_dial env_ok;
     conn_close := conn_close env_ok |}.

Definition the_client : Clientset := mkClientset (mkRestConfig "" admin_conf).

(** One collaborator replaced in an environment. *)
Definition with_spawn (f : nat -> string -> list string -> ProcRun) (env : Env) : Env :=
  mkEnv f (build_config env) (new_for_config env) (pods_list env) (read_file env)
        (new_client env) (add_repo env) (install_or_upgrade env) (install_chart env)
        (namespaces_create env) (net_dial env) (conn_close env).

Definition with_conn_close (f : nat -> option error) (env : Env) : Env :=
  mkEnv (spawn env) (build_config env) (new_for_config env) (pods_list env)
        (read_file env) (new_client env) (add_repo env) (install_or_upgrade env)
        (install_chart env) (namespaces_create env) (net_dial env) f.

Definition with_namespaces_create (f : nat -> NamespaceObj -> option error)
           (env : Env) : Env :=
  mkEnv (spawn env) (build_config env) (new_for_config env) (pods_list env)
        (read_file env) (new_client env) (add_repo env) (install_or_upgrade env)
        (install_chart env) f (net_dial env) (conn_close env).

(** [kubeadm init] writes to both streams and exits with status 1. *)
Definition env_kubeadm_fails : Env :=
  with_spawn
    (fun n _ _ =>
       if Nat.eqb n 1
       then mkProcRun None [(StdoutS, "[init] "); (StderrS, "port 6443 in use")] 1
       else proc_ok "ok")
    env_ok.

(** The gateway CRD command (the fourth command) exits with status 1. *)
Definition env_gateway_fails : Env :=
  with_spawn
    (fun n _ _ =>
       if Nat.eqb n 3 then mkProcRun None [(StderrS, "no route to host")] 1
       else proc_ok "ok")
    env_ok.

(** The kyverno namespace exists already. *)
Definition already_exists : error := ErrMsg "namespaces kyverno already exists".

Definition env_namespace_conflict : Env :=
  with_namespaces_create (fun n _ => if Nat.eqb n 0 then Some already_exists else None)
                         env_ok.

(** Closing the discovery socket fails. *)
Definition env_close_fails : Env :=
  with_conn_close (fun _ => Some (ErrMsg "use of closed network connection")) env_ok.

(** ** Reasoning about runs: weakest preconditions *)

(** [wp m Q st]: running [m] from [st] ends in an outcome and a state that
    satisfy [Q]. *)
Definition wp {A} (m : M A) (Q : Outcome A -> State -> Prop) (st : State) : Prop :=
  Q (fst (m st)) (snd (m st)).

Definition lift_post {A B} (f : A -> M B) (Q : Outcome B -> State -> Prop)
  : Outcome A -> State -> Prop :=
  fun o st =>
    match o with
    | Ret a => wp (f a) Q st
    | Exit c => Q (Exit c) st
    | Diverge => Q Diverge st
    end.

(** ** Fail-fast abort *)

(** The error a collaborator call returned. *)
Definition op_error (e : Event) : option error :=
  match e with
  | ERunCommand _ _ _ err | EBuildConfigFromFlags _ _ err | ENewForConfig _ err
  | EPodsList _ _ _ err | EReadFile _ _ err | ENewClientFromKubeConf _ err
  | EAddOrUpdateChartRepo _ _ err | EInstallOrUpgradeChart _ _ err
  | EInstallChart _ _ err | ENamespacesCreate _ _ err | EDial _ _ _ err => err
  | EConnClose err => err
  | ESleep _ => None
  end.

(** The call whose error the program drops: the deferred close of the
    discovery socket. *)
Definition result_dropped (e : Event) : bool :=
  match e with
  | EConnClose _ => true
  | _ => false
  end.

(** A call that returned an error, outside the readiness loop and other than
    the close whose result is dropped. *)
Definition aborting (e : Event) : bool :=
  (negb (is_polling e) && negb (result_dropped e) && isErr (op_error e))%bool.

(** The diagnostic output a call captured: only commands capture any. *)
Definition captured_output (e : Event) : option string :=
  match e with
  | ERunCommand _ _ out _ => Some out
  | _ => None
  end.

Fixpoint strings_eqb (a b : list string) : bool :=
  match a, b with
  | [], [] => true
  | x :: a', y :: b' => (String.eqb x y && strings_eqb a' b')%bool
  | _, _ => false
  end.

(** The two calls whose failure message leaves the error value out: the
    Gateway CRD command and the construction of the rook-ceph Helm client. *)
Definition error_not_logged (e : Event) : bool :=
  match e with
  | ERunCommand _ args _ _ => strings_eqb args (bash_c gateway_script)
  | ENewClientFromKubeConf opts _ => String.eqb (opt_Namespace opts) "rook-ceph"
  | _ => false
  end.

Definition log_args (l : LogEntry) : list Arg :=
  match l with
  | LPrintln _ => []
  | LPrintf _ a | LFatalf _ a => a
  end.

Definition is_fatal (l : LogEntry) : bool :=
  match l with LFatalf _ _ => true | _ => false end.

(** What the last two log entries say after the call [ev] failed. *)
Definition fatal_report (ev : Event) (l1 l2 : LogEntry) : Prop :=
  is_fatal l2 = true
  /\ (forall out, captured_output ev = Some out -> In (AStr out) (log_args l1 ++ log_args l2))
  /\ (error_not_logged ev = false -> In (AErr (op_error ev)) (log_args l1 ++ log_args l2))
  /\ (forall cs ns err,
         ev = ENamespacesCreate cs ns err ->
         l2 = LFatalf ("Failed to create " ++ ns_Name ns ++ " namespace: %s\n")%string [AErr err]).

(** Either no call aborted, or the aborting call is the last event of the
    run, which then exits with status 1 after the fatal report. *)
Definition fail_fast (o : Outcome unit) (st : State) : Prop :=
  (filter aborting (trace st) = [] /\ forall c, o <> Exit c)
  \/ (exists pre ev ls l1 l2,
         trace st = pre ++ [ev]
         /\ filter aborting pre = []
         /\ aborting ev = true
         /\ o = Exit 1%Z
         /\ logs st = ls ++ [l1; l2]
         /\ fatal_report ev l1 l2).

(** ** Stage order and chart installs *)

(** The stages of the pipeline, as the collaborator calls show them. *)
Inductive Stage : Type :=
| StartRuntime
| ControlPlaneInit
| ReadinessPoll
| TaintRemoval
| GatewayCRDs
| RepoRegistration (name : string)
| HostAddress
| ChartInstall (release : string)
| NamespaceCreation (name : string)
| StorageOverrides
| DefaultPolicies.

Definition command_stage (command : string) (args : list string) : option Stage :=
  let line := command :: args in
  if strings_eqb line ("bash" :: bash_c systemctl_script) then Some StartRuntime
  else if strings_eqb line ("kubeadm" :: kubeadm_args) then Some ControlPlaneInit
  else if strings_eqb line ("bash" :: bash_c untaint_script) then Some TaintRemoval
  else if strings_eqb line ("bash" :: bash_c gateway_script) then Some GatewayCRDs
  else if strings_eqb line ("bash" :: bash_c rook_overrides_script) then Some StorageOverrides
  else if strings_eqb line ("bash" :: bash_c default_policies_script) then Some DefaultPolicies
  else None.

(** The stage a call belongs to; building clients, reading the credentials,
    sleeping and closing the probe socket are no stage of their own. *)
Definition stage_of (e : Event) : option Stage :=
  match e with
  | ERunCommand command args _ _ => command_stage command args
  | EPodsList _ _ _ _ => Some ReadinessPoll
  | EAddOrUpdateChartRepo _ entry _ => Some (RepoRegistration (entry_Name entry))
  | EDial _ _ _ _ => Some HostAddress
  | EInstallOrUpgradeChart _ spec _ | EInstallChart _ spec _ =>
      Some (ChartInstall (ReleaseName spec))
  | ENamespacesCreate _ ns _ => Some (NamespaceCreation (ns_Name ns))
  | _ => None
  end.

Definition stages (tr : list Event) : list Stage :=
  flat_map (fun e => match stage_of e with Some s => [s] | None => [] end) tr.

Definition stages_after_poll : list Stage :=
  [ TaintRemoval; GatewayCRDs;
    RepoRegistration "cilium"; RepoRegistration "kyverno";
    RepoRegistration "rook"; RepoRegistration "gitops";
    HostAddress; ChartInstall "cilium";
    NamespaceCreation "kyverno"; ChartInstall "kyverno";
    NamespaceCreation "rook-ceph"; StorageOverrides;
    ChartInstall "rook-ceph"; ChartInstall "rook-ceph-cluster";
    NamespaceCreation "weave-gitops"; ChartInstall "weave-gitops";
    DefaultPolicies ].

(** The canonical order, with [n] failed readiness attempts before the
    ready one. *)
Definition canonical (n : nat) : list Stage :=
  [StartRuntime; ControlPlaneInit] ++ repeat ReadinessPoll (S n) ++ stages_after_poll.

(** Which operation installed a chart, through which handle. *)
Inductive InstallOp : Type := OpInstallOrUpgrade | OpInstall.

Definition install_of (e : Event) : option (InstallOp * HelmClient * ChartSpec) :=
  match e with
  | EInstallOrUpgradeChart c spec _ => Some (OpInstallOrUpgrade, c, spec)
  | EInstallChart c spec _ => Some (OpInstall, c, spec)
  | _ => None
  end.

Definition installs (tr : list Event) : list (InstallOp * HelmClient * ChartSpec) :=
  flat_map (fun e => match install_of e with Some i => [i] | None => [] end) tr.

(** Release name, namespace of the handle, namespace of the chart spec. *)
Definition install_namespaces (i : InstallOp * HelmClient * ChartSpec)
  : string * string * string :=
  let '(_, c, spec) := i in
  (ReleaseName spec, opt_Namespace (hc_options c), Namespace spec).

(** The handle check: "default" against "kube-system" for cilium, the
    chart's own namespace for every other release. *)
Definition handle_ok (i : InstallOp * HelmClient * ChartSpec) : bool :=
  let '(_, c, spec) := i in
  if String.eqb (ReleaseName spec) "cilium"
  then (String.eqb (opt_Namespace (hc_options c)) "default"
        && String.eqb (Namespace spec) "kube-system")%bool
  else String.eqb (opt_Namespace (hc_options c)) (Namespace spec).

(** The value payloads handed to the installer for the cilium release, and
    the addresses the discovery dial returned. *)
Definition cilium_payloads (tr : list Event) : list string :=
  flat_map (fun e => match install_of e with
                     | Some (_, _, spec) =>
                         if String.eqb (ReleaseName spec) "cilium"
                         then [ValuesYaml spec] else []
                     | None => []
                     end) tr.

Definition dialed (tr : list Event) : list string :=
  flat_map (fun e => match e with
                     | EDial _ _ ip None => [ip]
                     | _ => []
                     end) tr.

Definition layout (CiliumYaml : string) (o : Outcome unit) (st : State) : Prop :=
  forallb handle_ok (installs (trace st)) = true
  /\ incl (cilium_payloads (trace st))
          (map (fun ip => ValuesYaml (ciliumSpec CiliumYaml ip)) (dialed (trace st)))
  /\ (o = Ret tt ->
      (exists n, stages (trace st) = canonical n)
      /\ map install_namespaces (installs (trace st))
         = [ ("cilium", "default", "kube-system");
             ("kyverno", "kyverno", "kyverno");
             ("rook-ceph", "rook-ceph", "rook-ceph");
             ("rook-ceph-cluster", "rook-ceph", "rook-ceph");
             ("weave-gitops", "weave-gitops", "weave-gitops") ]).

(** ** The cached credentials *)

(** The credential blob each Helm client construction was given. *)
Definition client_blob (e : Event) : option (list Byte.byte) :=
  match e with
  | ENewClientFromKubeConf opts _ => Some (opt_KubeConfig opts)
  | _ => None
  end.

Definition client_blobs (tr : list Event) : list (list Byte.byte) :=
  flat_map (fun e => match client_blob e with Some b => [b] | None => [] end) tr.

(** The calls that read the credentials file: [os.ReadFile] on it, and
    [clientcmd.BuildConfigFromFlags], which loads the kubeconfig file at the
    path it is given. *)
Definition reads_credentials (e : Event) : bool :=
  match e with
  | EReadFile path _ _ => String.eqb path admin_conf
  | EBuildConfigFromFlags _ path _ => String.eqb path admin_conf
  | _ => false
  end.

Definition credential_reads (tr : list Event) : nat :=
  length (filter reads_credentials tr).

(** A chart install through a handle that holds an empty credential blob
    is refused. *)
Definition empty_credentials_refused (env : Env) : Prop :=
  forall n c spec,
    opt_KubeConfig (hc_options c) = [] -> install_or_upgrade env n c spec <> None.

Definition read_once (env : Env) (o : Outcome unit) (st : State) : Prop :=
  (ncalls KReadFile (trace st) <= 1 /\ ncalls KBuildConfig (trace st) <= 1)
  /\ Forall (fun b => b = fst (read_file env 0 admin_conf)) (client_blobs (trace st))
  /\ (kubeConfig st = [] \/ kubeConfig st = fst (read_file env 0 admin_conf)).

(** ** Templating the host address into the cilium values *)

Definition placeholder : string := "K8SHOST".

(** [tok] occurs in [s] at position [i]. *)
Definition occurs_at (tok s : string) (i : nat) : bool := String.prefix tok (drop i s).

(** All positions at which [tok] occurs in [s]. *)
Definition occurrences (tok s : string) : list nat :=
  filter (occurs_at tok s) (seq 0 (S (String.length s))).

Fixpoint all_chars (f : ascii -> bool) (s : string) : bool :=
  match s with
  | EmptyString => true
  | String c s' => (f c && all_chars f s')%bool
  end.

(** Characters of a textual IP address: digits, lower-case hexadecimal
    digits, the dot and the colon. *)
Definition ip_char (c : ascii) : bool :=
  let n := nat_of_ascii c in
  ((48 <=? n) && (n <=? 58) || (97 <=? n) && (n <=? 102) || (n =? 46))%nat%bool.

Definition ip_text (s : string) : bool :=
  ((2 <=? String.length s)%nat && all_chars ip_char s)%bool.

(** ** Further observations on runs *)

(** The repository alias of a chart reference [alias/chart]. *)
Definition chart_repo (chart : string) : string :=
  match Index chart "/" with
  | Some j => take j chart
  | None => chart
  end.

(** What a chart install depends on, and what provides it: a repository
    registered without error, a namespace created without error. *)
Inductive Dep : Type :=
| Registered (repo : string)
| Created (namespace : string)
| Installed (chart namespace : string).

Definition dep_of (e : Event) : option Dep :=
  match e with
  | EAddOrUpdateChartRepo _ entry None => Some (Registered (entry_Name entry))
  | ENamespacesCreate _ ns None => Some (Created (ns_Name ns))
  | EInstallOrUpgradeChart _ spec _ | EInstallChart _ spec _ =>
      Some (Installed (ChartName spec) (Namespace spec))
  | _ => None
  end.

Definition deps (tr : list Event) : list Dep :=
  flat_map (fun e => match dep_of e with Some d => [d] | None => [] end) tr.

(** The dependencies of a complete run, in the order of [main]. *)
Definition deps_full : list Dep :=
  [ Registered "cilium"; Registered "kyverno"; Registered "rook"; Registered "gitops";
    Installed "cilium/cilium" "kube-system";
    Created "kyverno"; Installed "kyverno/kyverno" "kyverno";
    Created "rook-ceph"; Installed "rook/rook-ceph" "rook-ceph";
    Installed "rook/rook-ceph-cluster" "rook-ceph";
    Created "weave-gitops"; Installed "gitops/weave-gitops" "weave-gitops" ].

(** The install blocks until the workloads and jobs are ready, within a
    timeout of two to fifteen minutes. *)
Definition spec_waits (i : InstallOp * HelmClient * ChartSpec) : bool :=
  (Wait (snd i) && WaitForJobs (snd i)
   && (2 * Minute <=? Timeout (snd i))%Z && (Timeout (snd i) <=? 15 * Minute)%Z)%bool.

Definition success_message : string := "Successfully initialized Kubernetes Cluster".

Definition is_success (l : LogEntry) : bool :=
  match l with
  | LPrintln s => String.eqb s success_message
  | _ => false
  end.

Definition Clientset_eqb (a b : Clientset) : bool :=
  (String.eqb (rc_master (cs_config a)) (rc_master (cs_config b))
   && String.eqb (rc_path (cs_config a)) (rc_path (cs_config b)))%bool.

(** A pod listing goes through [cs] and asks for "kube-system". *)
Definition polls_with (cs : Clientset) (e : Event) : bool :=
  match e with
  | EPodsList cs' ns _ _ => (Clientset_eqb cs' cs && String.eqb ns "kube-system")%bool
  | _ => true
  end.

(** Cluster calls go through the client built from admin.conf, repository
    registrations through the Helm handle of namespace "default". *)
Definition uses_clients (e : Event) : bool :=
  match e with
  | EPodsList _ _ _ _ => polls_with the_client e
  | ENamespacesCreate cs _ _ => Clientset_eqb cs the_client
  | EAddOrUpdateChartRepo c _ _ => String.eqb (opt_Namespace (hc_options c)) "default"
  | _ => true
  end.

Definition fatal_count (o : Outcome unit) : nat :=
  match o with Exit _ => 1 | _ => 0 end.

Definition success_count (o : Outcome unit) : nat :=
  match o with Ret _ => 1 | _ => 0 end.

(** What holds at the end of every path of [main]. *)
Definition run_shape (env : Env) (fuel : nat) (o : Outcome unit) (st : State) : Prop :=
  (exists n rest, stages (trace st) ++ rest = canonical n)
  /\ (exists rest, deps (trace st) ++ rest = deps_full)
  /\ forallb spec_waits (installs (trace st)) = true
  /\ (ncalls KConnClose (trace st) = length (dialed (trace st))
      /\ ncalls KDial (trace st) <= 1)
  /\ (length (filter is_fatal (logs st)) = fatal_count o
      /\ length (filter is_success (logs st)) = success_count o)
  /\ (o = Diverge ->
      (forall i, i < fuel -> not_ready (listing env i) = true)
      /\ stages (trace st) = [StartRuntime; ControlPlaneInit] ++ repeat ReadinessPoll fuel)
  /\ forallb uses_clients (trace st) = true.

Definition is_poll_stage (s : Stage) : bool :=
  match s with ReadinessPoll => true | _ => false end.

(** The stages of a trace apart from the readiness attempts. *)
Definition one_shot_stages (tr : list Event) : list Stage :=
  filter (fun s => negb (is_poll_stage s)) (stages tr).

(** The Helm handle the complete run of [env_ok] builds for kyverno, and the
    trace of that run. *)
Definition kyverno_handle : HelmClient :=
  mkHelmClient (mkOptions "kyverno" "/tmp/.helmcache" "/tmp/.helmrepo" false true ""
                          [Byte.x61]).

Definition full_run_trace : list Event := trace (snd (main "" "" "" "" env_ok 1 init)).

(** What [InstallSpecWithNSClient ns spec] leaves behind, by its result. *)
Definition install_result (ns : string) (spec : ChartSpec) (st : State)
           (o : Outcome (option error)) (st' : State) : Prop :=
  match o with
  | Ret None =>
      exists pre h,
        trace st' = pre ++ [EInstallChart h spec None]
        /\ opt_Namespace (hc_options h) = ns
  | Ret (Some e) =>
      (exists pre opts,
          trace st' = pre ++ [ENewClientFromKubeConf opts (Some e)]
          /\ ncalls KInstall (trace st') = ncalls KInstall (trace st))
      \/ (exists pre h,
             trace st' = pre ++ [EInstallChart h spec (Some e)]
             /\ opt_Namespace (hc_options h) = ns)
  | Exit c =>
      c = 1%Z
      /\ (exists pre data e, trace st' = pre ++ [EReadFile admin_conf data (Some e)])
      /\ ncalls KNewClient (trace st') = ncalls KNewClient (trace st)
      /\ ncalls KInstall (trace st') = ncalls KInstall (trace st)
  | Diverge => False
  end.

(** * Properties *)

(** ** The command runner *)

Lemma concat_empty_sep_cons (s : string) (l : list string) :
  String.concat "" (s :: l) = (s ++ String.concat "" l)%string.
Proof.
  destruct l as [|t l]; simpl.
  - induction s as [|c s IH]; simpl; [reflexivity | now rewrite <- IH].
  - reflexivity.
Qed.

Lemma string_app_assoc (a b c : string) :
  ((a ++ b) ++ c = a ++ (b ++ c))%string.
Proof. induction a as [|x a IH]; simpl; [reflexivity | now rewrite IH]. Qed.

Lemma string_app_nil_r (a : string) : (a ++ "")%string = a.
Proof. induction a as [|x a IH]; simpl; [reflexivity | now rewrite IH]. Qed.

Lemma fold_deliver_shared (command : string) (args : list string)
      (ws : list (Stream * string)) (acc : string) :
  fold_left (deliver (mkCmd command args (Some 0) (Some 0))) ws [(0, acc)]
  = [(0, (acc ++ String.concat "" (map snd ws))%string)].
Proof.
  revert acc; induction ws as [|[st w] ws IH]; intros acc.
  - simpl. now rewrite string_app_nil_r.
  - cbn [fold_left map snd]. rewrite concat_empty_sep_cons.
    replace (deliver (mkCmd command args (Some 0) (Some 0)) [(0, acc)] (st, w))
      with [(0, (acc ++ w)%string)] by (destruct st; reflexivity).
    rewrite IH. now rewrite string_app_assoc.
Qed.

(** C9 -- the Command Runner returns the merged output of both streams and
    the error of the run: for every program name, argument list and process
    behaviour, the returned string is everything the process wrote on
    standard output and standard error, in order, in one string; the
    returned error is non-nil exactly when the process could not be launched
    or exited with a non-zero status; and the string is returned whatever
    the error is. *)
Theorem RunCommand_contract (command : string) (args : list string) (p : ProcRun) :
  fst (run_on command args p) = merged_output p
  /\ (snd (run_on command args p) <> None
      <-> (pr_start p <> None \/ pr_exit p <> 0%Z)).
Proof.
  unfold run_on, merged_output, Cmd_Run, exec_Command; cbn [cmd_Path cmd_Args cmd_Stdout cmd_Stderr].
  destruct (pr_start p) as [e|] eqn:Hs.
  - cbn. split; [reflexivity|]. split; intros _; [left|]; discriminate.
  - rewrite fold_deliver_shared. cbn [fst snd Builder_String Nat.eqb].
    split; [reflexivity|].
    destruct (Z.eqb_spec (pr_exit p) 0) as [H0|H0]; split.
    + intros H; now elim H.
    + intros [H|H]; [now elim H | contradiction].
    + intros _; now right.
    + intros _; discriminate.
Qed.

(** ** Replacement in strings, on examples *)

Example Replace_first_only :
  Replace "a=K8SHOST;b=K8SHOST" "K8SHOST" "10.0.0.5" 1 = "a=10.0.0.5;b=K8SHOST".
Proof. reflexivity. Qed.

Example Replace_all :
  Replace "oink oink oink" "k" "ky" (-1) = "oinky oinky oinky".
Proof. reflexivity. Qed.

Example Replace_empty_old :
  Replace "abc" "" "X" (-1) = "XaXbXcX" /\ Replace "abc" "" "X" 2 = "XaXbc".
Proof. split; reflexivity. Qed.

(** ** The readiness prober: attempts and termination *)

Lemma ncalls_snoc (k : Kind) (tr : list Event) (e : Event) :
  ncalls k (tr ++ [e]) = if Kind_eqb (kind_of e) k then S (ncalls k tr) else ncalls k tr.
Proof.
  unfold ncalls. rewrite filter_app, length_app. simpl.
  destruct (Kind_eqb (kind_of e) k); simpl; lia.
Qed.

Lemma ncalls_app (k : Kind) (a b : list Event) :
  ncalls k (a ++ b) = ncalls k a + ncalls k b.
Proof. unfold ncalls. now rewrite filter_app, length_app. Qed.

Section ProberLemmas.

Variable env : Env.
Variable cs : Clientset.

Lemma retry_events_S (c n : nat) :
  retry_events env cs c (S n) = list_event env cs c :: ESleep poll_interval :: retry_events env cs (S c) n.
Proof. reflexivity. Qed.

Lemma retry_logs_S (c n : nat) :
  retry_logs env c (S n)
  = LPrintf "Kubernetes not yet ready: %s\n" [AErr (snd (listing env c))] :: retry_logs env (S c) n.
Proof. reflexivity. Qed.

(** The loop, once the listing that ends it is known: after [n] failed
    attempts the [n+1]-th listing is ready. *)
Lemma poll_ready (n : nat) :
  forall (fuel : nat) (st : State),
    let c := ncalls KPodsList (trace st) in
    (forall i, i < n -> not_ready (listing env (c + i)) = true) ->
    not_ready (listing env (c + n)) = false ->
    n < fuel ->
    poll env fuel cs st
    = (Ret tt,
       mkState (trace st ++ retry_events env cs c n ++ [list_event env cs (c + n)])
               (logs st ++ retry_logs env c n ++ [LPrintln "Kubernetes ready"])
               (kubeConfig st)).
Proof.
  induction n as [|n IH]; intros fuel st c Hfail Hok Hfuel.
  - destruct fuel as [|fuel]; [lia|].
    subst c. rewrite Nat.add_0_r in Hok. unfold not_ready, listing in Hok.
    cbn [poll]. unfold bind at 1. unfold PodsList, bind, history, emit, ret.
    cbn [trace logs kubeConfig].
    destruct (pods_list env (ncalls KPodsList (trace st)) "kube-system") as [pods err] eqn:E.
    cbn [fst snd] in *. rewrite Hok.
    unfold Println, log, retry_events, retry_logs, list_event, listing.
    cbn [seq flat_map map app trace logs kubeConfig].
    rewrite Nat.add_0_r, E. reflexivity.
  - destruct fuel as [|fuel]; [lia|].
    assert (H0 : not_ready (listing env c) = true)
      by (specialize (Hfail 0); rewrite Nat.add_0_r in Hfail; apply Hfail; lia).
    subst c. unfold not_ready, listing in H0.
    cbn [poll]. unfold bind at 1. unfold PodsList, bind, history, emit, ret.
    cbn [trace logs kubeConfig].
    destruct (pods_list env (ncalls KPodsList (trace st)) "kube-system") as [pods err] eqn:E.
    assert (Hev : list_event env cs (ncalls KPodsList (trace st))
                  = EPodsList cs "kube-system" pods err)
      by (unfold list_event, listing; now rewrite E).
    assert (Hlg : snd (listing env (ncalls KPodsList (trace st))) = err)
      by (unfold listing; now rewrite E).
    cbn [fst snd] in *. rewrite H0.
    unfold Printf, Sleep, log, emit. cbn [trace logs kubeConfig].
    match goal with |- poll env fuel cs ?s = _ => set (st1 := s) end.
    assert (Hc : ncalls KPodsList (trace st1) = S (ncalls KPodsList (trace st))).
    { subst st1. cbn [trace]. rewrite !ncalls_snoc. reflexivity. }
    rewrite (IH fuel st1).
    + rewrite Hc. subst st1. cbn [trace logs kubeConfig].
      rewrite retry_events_S, retry_logs_S, Hev, Hlg.
      rewrite <- !app_assoc. cbn [app].
      rewrite <- Nat.add_succ_comm. reflexivity.
    + intros i Hi. rewrite Hc. rewrite Nat.add_succ_comm. apply Hfail. lia.
    + rewrite Hc. rewrite Nat.add_succ_comm. exact Hok.
    + lia.
Qed.

(** The loop when every listing within the fuel is not ready. *)
Lemma poll_starved :
  forall (fuel : nat) (st : State),
    let c := ncalls KPodsList (trace st) in
    (forall i, i < fuel -> not_ready (listing env (c + i)) = true) ->
    poll env fuel cs st
    = (Diverge,
       mkState (trace st ++ retry_events env cs c fuel) (logs st ++ retry_logs env c fuel)
               (kubeConfig st)).
Proof.
  induction fuel as [|fuel IH]; intros st c Hfail.
  - cbn. rewrite !app_nil_r. now destruct st.
  - assert (H0 : not_ready (listing env c) = true)
      by (specialize (Hfail 0); rewrite Nat.add_0_r in Hfail; apply Hfail; lia).
    subst c. unfold not_ready, listing in H0.
    cbn [poll]. unfold bind at 1. unfold PodsList, bind, history, emit, ret.
    cbn [trace logs kubeConfig].
    destruct (pods_list env (ncalls KPodsList (trace st)) "kube-system") as [pods err] eqn:E.
    assert (Hev : list_event env cs (ncalls KPodsList (trace st))
                  = EPodsList cs "kube-system" pods err)
      by (unfold list_event, listing; now rewrite E).
    assert (Hlg : snd (listing env (ncalls KPodsList (trace st))) = err)
      by (unfold listing; now rewrite E).
    cbn [fst snd] in *. rewrite H0.
    unfold Printf, Sleep, log, emit. cbn [trace logs kubeConfig].
    match goal with |- poll env fuel cs ?s = _ => set (st1 := s) end.
    assert (Hc : ncalls KPodsList (trace st1) = S (ncalls KPodsList (trace st))).
    { subst st1. cbn [trace]. rewrite !ncalls_snoc. reflexivity. }
    rewrite (IH st1).
    + rewrite Hc. subst st1. cbn [trace logs kubeConfig].
      rewrite retry_events_S, retry_logs_S, Hev, Hlg.
      rewrite <- !app_assoc. reflexivity.
    + intros i Hi. rewrite Hc. rewrite Nat.add_succ_comm. apply Hfail. lia.
Qed.

End ProberLemmas.

(** Searching the first ready listing among the next [fuel] ones. *)
Lemma first_ready (env : Env) (c fuel : nat) :
  (exists n, n < fuel
             /\ (forall i, i < n -> not_ready (listing env (c + i)) = true)
             /\ not_ready (listing env (c + n)) = false)
  \/ (forall i, i < fuel -> not_ready (listing env (c + i)) = true).
Proof.
  induction fuel as [|fuel [[n (Hn & Hlt & Hr)]|Hall]].
  - right; intros i Hi; lia.
  - left; exists n; repeat split; auto; lia.
  - destruct (not_ready (listing env (c + fuel))) eqn:E.
    + right; intros i Hi.
      destruct (Nat.eq_dec i fuel) as [->|Hne]; [exact E | apply Hall; lia].
    + left; exists fuel; repeat split; auto.
Qed.

Lemma not_ready_true (r : list Pod * option error) :
  snd r <> None \/ fst r = [] -> not_ready r = true.
Proof.
  unfold not_ready; intros [H|H].
  - destruct (snd r); [reflexivity | now elim H].
  - rewrite H. cbn. now rewrite orb_true_r.
Qed.

Lemma not_ready_false (r : list Pod * option error) :
  snd r = None /\ fst r <> [] -> not_ready r = false.
Proof.
  unfold not_ready; intros [H1 H2]. rewrite H1.
  destruct (fst r); [now elim H2 | reflexivity].
Qed.

Lemma ncalls_retry_events (env : Env) (cs : Clientset) (c n : nat) :
  ncalls KPodsList (retry_events env cs c n) = n.
Proof.
  revert c; induction n as [|n IH]; intros c; [reflexivity|].
  rewrite retry_events_S. unfold ncalls in *. cbn. now rewrite IH.
Qed.

(** C3 -- the readiness prober makes exactly N+1 attempts: when the first
    [N] pod listings return an error or no pod and listing [N+1] returns
    pods without error, the prober (started before any listing, with enough
    fuel to get there) returns ready; what it did is [N] times a listing
    followed by a sleep of ten seconds, then the one listing that is ready:
    [N+1] listings in all; and with fuel for [N] attempts or fewer it has
    not returned. *)
Theorem prober_attempts (env : Env) (cs : Clientset) (N fuel : nat) (st : State) :
  ncalls KPodsList (trace st) = 0 ->
  (forall i, i < N -> snd (listing env i) <> None \/ fst (listing env i) = []) ->
  snd (listing env N) = None /\ fst (listing env N) <> [] ->
  (N < fuel ->
   exists st',
     poll env fuel cs st = (Ret tt, st')
     /\ trace st'
        = trace st
          ++ flat_map (fun i => [list_event env cs i; ESleep (10 * 1000000000)%Z]) (seq 0 N)
          ++ [list_event env cs N]
     /\ ncalls KPodsList (trace st') = N + 1)
  /\ (fuel <= N -> fst (poll env fuel cs st) = Diverge).
Proof.
  intros Hc Hfail Hok. split.
  - intros Hfuel. eexists. split; [|split].
    + apply (poll_ready env cs N); rewrite ?Hc; cbn [Nat.add]; auto.
      * intros i Hi. apply not_ready_true. auto.
      * now apply not_ready_false.
    + cbn [trace]. rewrite Hc. reflexivity.
    + cbn [trace]. rewrite !ncalls_app, Hc, ncalls_retry_events. reflexivity.
  - intros Hfuel. rewrite poll_starved; [reflexivity|].
    intros i Hi. rewrite Hc. apply not_ready_true. apply Hfail. lia.
Qed.

Lemma prober_attempts_witness :
  exists st',
    poll (env_late 2) 3 the_client init = (Ret tt, st')
    /\ ncalls KPodsList (trace st') = 3.
Proof.
  destruct (prober_attempts (env_late 2) the_client 2 3 init) as [H _].
  - reflexivity.
  - intros i Hi. left. unfold listing. cbn [env_late pods_list].
    destruct (Nat.ltb_spec i 2); cbn; [discriminate | lia].
  - split; [reflexivity | discriminate].
  - destruct H as (st' & H1 & _ & H3); [lia|]. exists st'. split; assumption.
Defined.

(** C4 -- the readiness loop ends exactly when some listing is ready: from
    any state, the prober returns (for some fuel) if and only if one of the
    listings still to come returns pods without error; it never ends the
    process, whatever the listings return; and no number of attempts bounds
    it: for every [B] there is an environment in which it returns only after
    more than [B] listings. *)
Theorem prober_termination (env : Env) (cs : Clientset) (st : State) :
  ((exists fuel, fst (poll env fuel cs st) = Ret tt)
   <-> (exists n, snd (listing env (ncalls KPodsList (trace st) + n)) = None
                  /\ fst (listing env (ncalls KPodsList (trace st) + n)) <> []))
  /\ (forall fuel code, fst (poll env fuel cs st) <> Exit code)
  /\ (forall B, exists env' fuel st',
         poll env' fuel cs st = (Ret tt, st')
         /\ B < ncalls KPodsList (trace st') - ncalls KPodsList (trace st)).
Proof.
  split; [split|split].
  - intros [fuel Hret].
    destruct (first_ready env (ncalls KPodsList (trace st)) fuel)
      as [(n & _ & _ & Hr)|Hall].
    + exists n. unfold not_ready in Hr. apply orb_false_elim in Hr as [H1 H2].
      split.
      * destruct (snd (listing env _)); [discriminate | reflexivity].
      * intros H. rewrite H in H2. discriminate.
    + rewrite poll_starved in Hret by exact Hall. discriminate.
  - intros [n Hn]. apply not_ready_false in Hn.
    destruct (first_ready env (ncalls KPodsList (trace st)) (S n))
      as [(m & Hm & Hlt & Hr)|Hall].
    + exists (S m). rewrite (poll_ready env cs m); auto.
    + rewrite Hall in Hn by lia. discriminate.
  - intros fuel code.
    destruct (first_ready env (ncalls KPodsList (trace st)) fuel)
      as [(n & Hn & Hlt & Hr)|Hall].
    + rewrite (poll_ready env cs n); auto. discriminate.
    + rewrite poll_starved by exact Hall. discriminate.
  - intros B.
    set (c := ncalls KPodsList (trace st)).
    exists (env_late (c + S B)), (S (S B)). eexists. split.
    + apply (poll_ready (env_late (c + S B)) cs (S B)); fold c.
      * intros i Hi. unfold not_ready, listing. cbn [env_late pods_list].
        destruct (Nat.ltb_spec (c + i) (c + S B)); [reflexivity | lia].
      * unfold not_ready, listing. cbn [env_late pods_list].
        destruct (Nat.ltb_spec (c + S B) (c + S B)); [lia | reflexivity].
      * lia.
    + cbn [trace]. fold c. rewrite !ncalls_app, ncalls_retry_events.
      fold c. cbn. lia.
Qed.

(** ** Rules of the weakest precondition *)

Lemma wp_bind {A B} (m : M A) (f : A -> M B) Q st :
  wp m (lift_post f Q) st -> wp (bind m f) Q st.
Proof.
  unfold wp, lift_post, bind.
  destruct (m st) as [[a|c|] st']; cbn; auto.
Qed.

Lemma wp_ret {A} (a : A) (Q : Outcome A -> State -> Prop) st :
  Q (Ret a) st -> wp (ret a) Q st.
Proof. auto. Qed.

Lemma wp_Println s (Q : Outcome unit -> State -> Prop) st :
  Q (Ret tt) (mkState (trace st) (logs st ++ [LPrintln s]) (kubeConfig st)) ->
  wp (Println s) Q st.
Proof. auto. Qed.

Lemma wp_Printf f a (Q : Outcome unit -> State -> Prop) st :
  Q (Ret tt) (mkState (trace st) (logs st ++ [LPrintf f a]) (kubeConfig st)) ->
  wp (Printf f a) Q st.
Proof. auto. Qed.

Lemma wp_Fatalf {A} f a (Q : Outcome A -> State -> Prop) st :
  Q (Exit 1%Z) (mkState (trace st) (logs st ++ [LFatalf f a]) (kubeConfig st)) ->
  wp (Fatalf f a) Q st.
Proof. auto. Qed.

Lemma wp_Sleep d (Q : Outcome unit -> State -> Prop) st :
  Q (Ret tt) (mkState (trace st ++ [ESleep d]) (logs st) (kubeConfig st)) ->
  wp (Sleep d) Q st.
Proof. auto. Qed.

Lemma wp_getKubeConfig (Q : Outcome (list Byte.byte) -> State -> Prop) st :
  Q (Ret (kubeConfig st)) st -> wp getKubeConfig Q st.
Proof. auto. Qed.

Lemma wp_setKubeConfig b (Q : Outcome unit -> State -> Prop) st :
  Q (Ret tt) (mkState (trace st) (logs st) b) -> wp (setKubeConfig b) Q st.
Proof. auto. Qed.

Section Rules.

Variable env : Env.

Lemma wp_RunCommand command args (Q : Outcome (string * option error) -> State -> Prop) st :
  (forall out err,
      (out, err) = run_on command args (spawn env (ncalls KRunCommand (trace st)) command args) ->
      Q (Ret (out, err))
        (mkState (trace st ++ [ERunCommand command args out err]) (logs st) (kubeConfig st))) ->
  wp (RunCommand env command args) Q st.
Proof.
  intros H. unfold wp, RunCommand, bind, history, emit, ret. cbn.
  destruct (run_on _ _ _) as [out err] eqn:E. cbn. now apply H.
Qed.

Lemma wp_BuildConfigFromFlags master path (Q : Outcome (RestConfig * option error) -> State -> Prop) st :
  (forall err,
      err = build_config env (ncalls KBuildConfig (trace st)) master path ->
      Q (Ret (mkRestConfig master path, err))
        (mkState (trace st ++ [EBuildConfigFromFlags master path err]) (logs st) (kubeConfig st))) ->
  wp (BuildConfigFromFlags env master path) Q st.
Proof. intros H. now apply H. Qed.

Lemma wp_NewForConfig cfg (Q : Outcome (Clientset * option error) -> State -> Prop) st :
  (forall err,
      err = new_for_config env (ncalls KNewForConfig (trace st)) cfg ->
      Q (Ret (mkClientset cfg, err))
        (mkState (trace st ++ [ENewForConfig cfg err]) (logs st) (kubeConfig st))) ->
  wp (NewForConfig env cfg) Q st.
Proof. intros H. now apply H. Qed.

Lemma wp_ReadFile path (Q : Outcome (list Byte.byte * option error) -> State -> Prop) st :
  (forall data err,
      (data, err) = read_file env (ncalls KReadFile (trace st)) path ->
      Q (Ret (data, err))
        (mkState (trace st ++ [EReadFile path data err]) (logs st) (kubeConfig st))) ->
  wp (ReadFile env path) Q st.
Proof.
  intros H. unfold wp, ReadFile, bind, history, emit, ret. cbn.
  destruct (read_file _ _ _) as [data err] eqn:E. cbn. now apply H.
Qed.

Lemma wp_NewClientFromKubeConf opts (Q : Outcome (HelmClient * option error) -> State -> Prop) st :
  (forall err,
      err = new_client env (ncalls KNewClient (trace st)) opts ->
      Q (Ret (mkHelmClient opts, err))
        (mkState (trace st ++ [ENewClientFromKubeConf opts err]) (logs st) (kubeConfig st))) ->
  wp (NewClientFromKubeConf env opts) Q st.
Proof. intros H. now apply H. Qed.

Lemma wp_AddOrUpdateChartRepo c entry (Q : Outcome (option error) -> State -> Prop) st :
  (forall err,
      err = add_repo env (ncalls KAddRepo (trace st)) c entry ->
      Q (Ret err)
        (mkState (trace st ++ [EAddOrUpdateChartRepo c entry err]) (logs st) (kubeConfig st))) ->
  wp (AddOrUpdateChartRepo env c entry) Q st.
Proof. intros H. now apply H. Qed.

Lemma wp_InstallOrUpgradeChart c spec (Q : Outcome (option error) -> State -> Prop) st :
  (forall err,
      err = install_or_upgrade env (ncalls KInstallOrUpgrade (trace st)) c spec ->
      Q (Ret err)
        (mkState (trace st ++ [EInstallOrUpgradeChart c spec err]) (logs st) (kubeConfig st))) ->
  wp (InstallOrUpgradeChart env c spec) Q st.
Proof. intros H. now apply H. Qed.

Lemma wp_InstallChart c spec (Q : Outcome (option error) -> State -> Prop) st :
  (forall err,
      err = install_chart env (ncalls KInstall (trace st)) c spec ->
      Q (Ret err)
        (mkState (trace st ++ [EInstallChart c spec err]) (logs st) (kubeConfig st))) ->
  wp (InstallChart env c spec) Q st.
Proof. intros H. now apply H. Qed.

Lemma wp_NamespacesCreate cs ns (Q : Outcome (option error) -> State -> Prop) st :
  (forall err,
      err = namespaces_create env (ncalls KNamespacesCreate (trace st)) ns ->
      Q (Ret err)
        (mkState (trace st ++ [ENamespacesCreate cs ns err]) (logs st) (kubeConfig st))) ->
  wp (NamespacesCreate env cs ns) Q st.
Proof. intros H. now apply H. Qed.

Lemma wp_ConnClose (Q : Outcome (option error) -> State -> Prop) st :
  (forall err,
      err = conn_close env (ncalls KConnClose (trace st)) ->
      Q (Ret err)
        (mkState (trace st ++ [EConnClose err]) (logs st) (kubeConfig st))) ->
  wp (ConnClose env) Q st.
Proof. intros H. now apply H. Qed.

Lemma wp_Dial network address (Q : Outcome (string * option error) -> State -> Prop) st :
  (forall ip err,
      (ip, err) = net_dial env (ncalls KDial (trace st)) network address ->
      Q (Ret (ip, err))
        (mkState (trace st ++ [EDial network address ip err]) (logs st) (kubeConfig st))) ->
  wp (Dial env network address) Q st.
Proof.
  intros H. unfold wp, Dial, bind, history, emit, ret. cbn.
  destruct (net_dial _ _ _) as [ip err] eqn:E. cbn. now apply H.
Qed.

Lemma retry_events_polling cs c n :
  forallb is_polling (retry_events env cs c n) = true.
Proof.
  revert c; induction n as [|n IH]; intros c; [reflexivity|].
  rewrite retry_events_S. cbn. apply IH.
Qed.

(** The loop either returns after [n] failed attempts and a ready one, or
    is still retrying when the fuel is spent; it only lists and sleeps, and
    leaves [kubeConfig] alone. *)
Lemma wp_poll fuel cs (Q : Outcome unit -> State -> Prop) st :
  (forall n ps ls,
      ps = retry_events env cs (ncalls KPodsList (trace st)) n
           ++ [list_event env cs (ncalls KPodsList (trace st) + n)] ->
      forallb is_polling ps = true ->
      Q (Ret tt) (mkState (trace st ++ ps) (logs st ++ ls) (kubeConfig st))) ->
  (forall ps ls,
      forallb is_polling ps = true ->
      Q Diverge (mkState (trace st ++ ps) (logs st ++ ls) (kubeConfig st))) ->
  wp (poll env fuel cs) Q st.
Proof.
  intros Hret Hdiv. unfold wp.
  destruct (first_ready env (ncalls KPodsList (trace st)) fuel)
    as [(n & Hn & Hlt & Hr)|Hall].
  - rewrite (poll_ready env cs n); auto. cbn [fst snd].
    apply (Hret n); [reflexivity|].
    rewrite forallb_app, retry_events_polling. reflexivity.
  - rewrite poll_starved by exact Hall. cbn [fst snd].
    apply Hdiv. apply retry_events_polling.
Qed.

End Rules.

Ltac wp_prim :=
  lazymatch goal with
  | |- wp (ret _) _ _ => apply wp_ret
  | |- wp (Println _) _ _ => apply wp_Println
  | |- wp (Printf _ _) _ _ => apply wp_Printf
  | |- wp (Fatalf _ _) _ _ => apply wp_Fatalf
  | |- wp (Sleep _) _ _ => apply wp_Sleep
  | |- wp (ConnClose _) _ _ => apply wp_ConnClose; intros ? ?
  | |- wp getKubeConfig _ _ => apply wp_getKubeConfig
  | |- wp (setKubeConfig _) _ _ => apply wp_setKubeConfig
  | |- wp (RunCommand _ _ _) _ _ => apply wp_RunCommand; intros ? ? ?
  | |- wp (BuildConfigFromFlags _ _ _) _ _ => apply wp_BuildConfigFromFlags; intros ? ?
  | |- wp (NewForConfig _ _) _ _ => apply wp_NewForConfig; intros ? ?
  | |- wp (ReadFile _ _) _ _ => apply wp_ReadFile; intros ? ? ?
  | |- wp (NewClientFromKubeConf _ _) _ _ => apply wp_NewClientFromKubeConf; intros ? ?
  | |- wp (AddOrUpdateChartRepo _ _ _) _ _ => apply wp_AddOrUpdateChartRepo; intros ? ?
  | |- wp (InstallOrUpgradeChart _ _ _) _ _ => apply wp_InstallOrUpgradeChart; intros ? ?
  | |- wp (InstallChart _ _ _) _ _ => apply wp_InstallChart; intros ? ?
  | |- wp (NamespacesCreate _ _ _) _ _ => apply wp_NamespacesCreate; intros ? ?
  | |- wp (Dial _ _ _) _ _ => apply wp_Dial; intros ? ? ?
  end.

Ltac wp_split :=
  match goal with
  | |- wp (when (isErr ?e) _) _ _ => is_var e; destruct e; cbn [when isErr]
  | |- wp (when (Nat.eqb (length ?d) 0) _) _ _ =>
      is_var d; destruct d; cbn [when length Nat.eqb]
  | |- wp (match ?e with Some _ => _ | None => _ end) _ _ => is_var e; destruct e
  | |- wp (poll _ _ _) _ _ =>
      apply wp_poll; [intros ? ? ? ? ? | intros ? ? ?]
  end.

Ltac wp_run :=
  repeat first
    [ progress cbn [lift_post trace logs kubeConfig when isErr length Nat.eqb]
    | lazymatch goal with |- wp (bind _ _) _ _ => apply wp_bind end
    | wp_prim
    | wp_split
    | progress unfold helmClientForNs, initKubeConf, InstallSpecWithNSClient,
        GetDefaultIP ].

(** ** Fail-fast abort, on every path of [main] *)

Lemma filter_aborting_polling (ps : list Event) :
  forallb is_polling ps = true -> filter aborting ps = [].
Proof.
  induction ps as [|e ps IH]; cbn; [reflexivity|].
  intros H. apply andb_prop in H as [He Hps].
  unfold aborting at 1. rewrite He. cbn. auto.
Qed.

Lemma snoc2 {A} (l : list A) (a b : A) : (l ++ [a]) ++ [b] = l ++ [a; b].
Proof. now rewrite <- app_assoc. Qed.

Ltac no_abort :=
  rewrite ?filter_app;
  repeat match goal with
         | H : forallb is_polling ?ps = true |- context [filter aborting ?ps] =>
             rewrite (filter_aborting_polling ps H)
         end;
  reflexivity.

Ltac report_ok :=
  unfold fatal_report; repeat split;
  [ intros ? Hout; cbn in Hout; try discriminate Hout;
    injection Hout as <-; cbn; auto
  | cbn; intros Hlogged; try discriminate Hlogged; auto
  | intros ? ? ? Hev; try discriminate Hev; injection Hev as <- <- <-; reflexivity ].

Ltac fail_fast_leaf :=
  lazymatch goal with
  | |- fail_fast (Exit _) _ =>
      right; do 5 eexists; cbn [trace logs];
      split; [reflexivity|];
      split; [no_abort|];
      split; [reflexivity|];
      split; [reflexivity|];
      split; [apply snoc2 | report_ok]
  | |- fail_fast _ _ =>
      left; cbn [trace]; split; [no_abort | intros ?; discriminate]
  end.

Lemma main_fail_fast (Y1 Y2 Y3 Y4 : string) (env : Env) (fuel : nat) :
  wp (main Y1 Y2 Y3 Y4 env fuel) fail_fast init.
Proof.
  unfold main, init. wp_run.
  all: fail_fast_leaf.
Qed.

Lemma filter_nil_not_in {A} (p : A -> bool) (l : list A) (x : A) :
  filter p l = [] -> In x l -> p x = true -> False.
Proof.
  intros Hnil Hin Hp.
  assert (H : In x (filter p l)) by (apply filter_In; auto).
  rewrite Hnil in H. exact H.
Qed.

Lemma last_is_only {A} (p : A -> bool) (pre pre' post : list A) (ev ev' : A) :
  filter p pre = [] ->
  pre ++ [ev] = pre' ++ ev' :: post ->
  p ev' = true ->
  post = [] /\ ev' = ev.
Proof.
  intros Hnil Heq Hp.
  destruct (exists_last (l := ev' :: post)) as (body & x & Hx); [discriminate|].
  rewrite Hx, app_assoc in Heq. apply app_inj_tail in Heq as [Hpre ->].
  destruct post as [|y post].
  - destruct body as [|b body]; cbn in Hx.
    + injection Hx as ->. auto.
    + injection Hx as _ Hx. destruct body; discriminate Hx.
  - exfalso. apply (filter_nil_not_in p pre ev' Hnil); [|exact Hp].
    rewrite Hpre. apply in_or_app. right.
    destruct body as [|b body]; cbn in Hx.
    + injection Hx as _ Hx. discriminate Hx.
    + injection Hx as -> _. now left.
Qed.

(** C1 (amended) -- fail-fast abort: in every run, when a collaborator call
    returns an error, and the call is neither a pod listing of the readiness
    loop nor the deferred close of the discovery socket, it is
    the last call of the run (nothing is invoked after it, no cleanup), the
    process exits with status 1, and the log ends with a fatal entry; the
    last two log entries hold the captured output when the call was a
    command, and hold the error unless the call is the Gateway CRD command
    or the construction of the rook-ceph Helm client. *)
Theorem abort_on_first_failure (Y1 Y2 Y3 Y4 : string) (env : Env) (fuel : nat)
        (pre post : list Event) (ev : Event) :
  trace (snd (main Y1 Y2 Y3 Y4 env fuel init)) = pre ++ ev :: post ->
  aborting ev = true ->
  post = []
  /\ fst (main Y1 Y2 Y3 Y4 env fuel init) = Exit 1%Z
  /\ exists ls l1 l2,
      logs (snd (main Y1 Y2 Y3 Y4 env fuel init)) = ls ++ [l1; l2]
      /\ is_fatal l2 = true
      /\ (forall out, captured_output ev = Some out ->
                      In (AStr out) (log_args l1 ++ log_args l2))
      /\ (error_not_logged ev = false ->
          In (AErr (op_error ev)) (log_args l1 ++ log_args l2)).
Proof.
  intros Htr Hab.
  destruct (main_fail_fast Y1 Y2 Y3 Y4 env fuel)
    as [[Hnil _]|(pre' & ev' & ls & l1 & l2 & Ht & Hnil & _ & Ho & Hl & Hrep)].
  - exfalso. apply (filter_nil_not_in aborting _ ev Hnil); [|exact Hab].
    rewrite Htr. apply in_or_app. right. now left.
  - rewrite Htr in Ht. symmetry in Ht.
    destruct (last_is_only aborting pre' pre post ev' ev Hnil Ht Hab) as [-> ->].
    destruct Hrep as (Hf & Hout & Herr & _).
    repeat split; auto. exists ls, l1, l2. auto.
Qed.

(** C8 -- a failed namespace creation is fatal whatever the error: in every
    run, when a namespace creation returns an error [e] (a duplicate-name
    conflict or any other), it is the last call of the run, the process
    exits with status 1, and the last log entry is the fatal entry
    "Failed to create <name> namespace: %s" with [e]. *)
Theorem namespace_error_fatal (Y1 Y2 Y3 Y4 : string) (env : Env) (fuel : nat)
        (pre post : list Event) (cs : Clientset) (ns : NamespaceObj) (e : error) :
  trace (snd (main Y1 Y2 Y3 Y4 env fuel init))
  = pre ++ ENamespacesCreate cs ns (Some e) :: post ->
  post = []
  /\ fst (main Y1 Y2 Y3 Y4 env fuel init) = Exit 1%Z
  /\ exists ls,
      logs (snd (main Y1 Y2 Y3 Y4 env fuel init))
      = ls ++ [LFatalf ("Failed to create " ++ ns_Name ns ++ " namespace: %s\n")%string
                       [AErr (Some e)]].
Proof.
  intros Htr.
  destruct (main_fail_fast Y1 Y2 Y3 Y4 env fuel)
    as [[Hnil _]|(pre' & ev' & ls & l1 & l2 & Ht & Hnil & _ & Ho & Hl & Hrep)].
  - exfalso.
    apply (filter_nil_not_in aborting _ (ENamespacesCreate cs ns (Some e)) Hnil);
      [|reflexivity].
    rewrite Htr. apply in_or_app. right. now left.
  - rewrite Htr in Ht. symmetry in Ht.
    destruct (last_is_only aborting pre' pre post ev' _ Hnil Ht eq_refl) as [-> <-].
    destruct Hrep as (_ & _ & _ & Hns).
    repeat split; auto. exists (ls ++ [l1]).
    rewrite Hl, (Hns cs ns (Some e) eq_refl), <- app_assoc. reflexivity.
Qed.

Lemma abort_on_first_failure_witness :
  fst (main "" "" "" "" env_kubeadm_fails 1 init) = Exit 1%Z
  /\ exists ls l1 l2,
      logs (snd (main "" "" "" "" env_kubeadm_fails 1 init)) = ls ++ [l1; l2]
      /\ In (AStr "[init] port 6443 in use") (log_args l1 ++ log_args l2)
      /\ In (AErr (Some (ExitError 1))) (log_args l1 ++ log_args l2).
Proof.
  destruct (abort_on_first_failure "" "" "" "" env_kubeadm_fails 1
              [ERunCommand "bash" (bash_c systemctl_script) "ok" None] []
              (ERunCommand "kubeadm" kubeadm_args "[init] port 6443 in use"
                           (Some (ExitError 1))))
    as (_ & Hexit & ls & l1 & l2 & Hl & _ & Hout & Herr).
  - vm_compute. reflexivity.
  - reflexivity.
  - split; [exact Hexit|]. exists ls, l1, l2. split; [exact Hl|]. split.
    + apply Hout. reflexivity.
    + apply Herr. reflexivity.
Defined.

Lemma namespace_error_fatal_witness :
  fst (main "" "" "" "" env_namespace_conflict 1 init) = Exit 1%Z
  /\ exists ls,
      logs (snd (main "" "" "" "" env_namespace_conflict 1 init))
      = ls ++ [LFatalf "Failed to create kyverno namespace: %s\n"
                       [AErr (Some already_exists)]].
Proof.
  destruct (namespace_error_fatal "" "" "" "" env_namespace_conflict 1
              (removelast (trace (snd (main "" "" "" "" env_namespace_conflict 1 init))))
              [] the_client (kyvNsSpec) already_exists)
    as (_ & Hexit & ls & Hl).
  - vm_compute. reflexivity.
  - split; [exact Hexit|]. exists ls. exact Hl.
Defined.

(** C1 as stated fails for the readiness loop: the first pod listing returns
    an error, and the run still goes on to invoke every later stage and
    returns normally. *)
Lemma abort_on_any_error_counterexample :
  ~ (forall pre ev post,
        trace (snd (main "" "" "" "" (env_late 1) 2 init)) = pre ++ ev :: post ->
        isErr (op_error ev) = true ->
        post = [] /\ fst (main "" "" "" "" (env_late 1) 2 init) = Exit 1%Z).
Proof.
  intros H.
  destruct (H (firstn 4 (trace (snd (main "" "" "" "" (env_late 1) 2 init))))
              (EPodsList the_client "kube-system" [] (Some (ErrMsg "connection refused")))
              (skipn 5 (trace (snd (main "" "" "" "" (env_late 1) 2 init)))))
    as [_ Hexit].
  - vm_compute. reflexivity.
  - reflexivity.
  - vm_compute in Hexit. discriminate Hexit.
Qed.

(** The error of [conn.Close()] is dropped by the [defer] in
    [GetDefaultIP]: when closing the discovery socket fails, the run still
    goes on through every later stage and returns normally. *)
Lemma close_error_is_dropped :
  fst (main "" "" "" "" env_close_fails 1 init) = Ret tt
  /\ existsb (fun e => (result_dropped e && isErr (op_error e))%bool)
             (trace (snd (main "" "" "" "" env_close_fails 1 init))) = true
  /\ stages (trace (snd (main "" "" "" "" env_close_fails 1 init)))
     = stages (trace (snd (main "" "" "" "" env_ok 1 init))).
Proof. split; [|split]; vm_compute; reflexivity. Qed.

(** The Gateway CRD command fails: the run exits with status 1 and its last
    two log entries hold the captured output, but not the error. *)
Lemma gateway_failure_report :
  fst (main "" "" "" "" env_gateway_fails 1 init) = Exit 1%Z
  /\ exists ls,
      logs (snd (main "" "" "" "" env_gateway_fails 1 init))
      = ls ++ [ LPrintf "Failed to apply gateway CRDs" [];
                LFatalf "Kubectl output: %s\n" [AStr "no route to host"] ].
Proof.
  split; [vm_compute; reflexivity|].
  exists (removelast (removelast (logs (snd (main "" "" "" "" env_gateway_fails 1 init))))).
  vm_compute. reflexivity.
Qed.

(** ** Stage order and chart installs, on every path of [main] *)

Lemma cilium_payloads_app (a b : list Event) :
  cilium_payloads (a ++ b) = cilium_payloads a ++ cilium_payloads b.
Proof. apply flat_map_app. Qed.

Lemma dialed_app (a b : list Event) : dialed (a ++ b) = dialed a ++ dialed b.
Proof. apply flat_map_app. Qed.

Lemma cilium_payloads_polling (ps : list Event) :
  forallb is_polling ps = true -> cilium_payloads ps = [].
Proof.
  unfold cilium_payloads.
  induction ps as [|e ps IH]; cbn; [reflexivity|].
  intros H. apply andb_prop in H as [He Hps].
  rewrite (IH Hps). destruct e; try discriminate He; reflexivity.
Qed.

Lemma dialed_polling (ps : list Event) :
  forallb is_polling ps = true -> dialed ps = [].
Proof.
  unfold dialed.
  induction ps as [|e ps IH]; cbn; [reflexivity|].
  intros H. apply andb_prop in H as [He Hps].
  rewrite (IH Hps). destruct e; try discriminate He; reflexivity.
Qed.

Lemma stages_app (a b : list Event) : stages (a ++ b) = stages a ++ stages b.
Proof. apply flat_map_app. Qed.

Lemma installs_app (a b : list Event) : installs (a ++ b) = installs a ++ installs b.
Proof. apply flat_map_app. Qed.

Lemma installs_polling (ps : list Event) :
  forallb is_polling ps = true -> installs ps = [].
Proof.
  unfold installs.
  induction ps as [|e ps IH]; cbn; [reflexivity|].
  intros H. apply andb_prop in H as [He Hps].
  rewrite (IH Hps). destruct e; try discriminate He; reflexivity.
Qed.

Lemma stages_retry_events env cs c n :
  stages (retry_events env cs c n) = repeat ReadinessPoll n.
Proof.
  unfold stages.
  revert c; induction n as [|n IH]; intros c; [reflexivity|].
  rewrite retry_events_S. cbn. now rewrite (IH (S c)).
Qed.

Lemma stages_attempts env cs c n m :
  stages (retry_events env cs c n ++ [list_event env cs m]) = repeat ReadinessPoll (S n).
Proof.
  rewrite stages_app, stages_retry_events. cbn.
  induction n as [|n IH]; cbn; [reflexivity | now rewrite IH].
Qed.

Ltac layout_leaf :=
  unfold layout; cbn [trace]; split; [|split];
  [ rewrite ?installs_app;
    repeat match goal with
           | H : forallb is_polling ?ps = true |- context [installs ?ps] =>
               rewrite (installs_polling ps H)
           end;
    reflexivity
  | rewrite ?cilium_payloads_app, ?dialed_app;
    repeat match goal with
           | H : forallb is_polling ?ps = true |- _ =>
               rewrite ?(cilium_payloads_polling ps H), ?(dialed_polling ps H)
           end;
    cbn [cilium_payloads dialed flat_map install_of app map];
    intros x Hx; first [exact Hx | destruct Hx]
  | intros Hret;
    first
      [ discriminate Hret
      | split;
        [ lazymatch goal with
          | H : _ = retry_events _ _ _ ?n ++ _ |- _ =>
              exists n; rewrite ?stages_app; rewrite H, stages_attempts;
              rewrite <- ?app_assoc; reflexivity
          end
        | rewrite ?installs_app;
          repeat match goal with
                 | H : forallb is_polling ?ps = true |- context [installs ?ps] =>
                     rewrite (installs_polling ps H)
                 end;
          reflexivity ] ] ].

Lemma main_layout (Y1 Y2 Y3 Y4 : string) (env : Env) (fuel : nat) :
  wp (main Y1 Y2 Y3 Y4 env fuel) (layout Y1) init.
Proof.
  unfold main, init. wp_run.
  all: layout_leaf.
Qed.

Lemma canonical_nth (n i : nat) (s : Stage) :
  nth_error (canonical n) i = Some s ->
  (i < 2 /\ nth_error [StartRuntime; ControlPlaneInit] i = Some s)
  \/ (2 <= i < n + 3 /\ s = ReadinessPoll)
  \/ (n + 3 <= i /\ nth_error stages_after_poll (i - (n + 3)) = Some s).
Proof.
  unfold canonical. intros H.
  destruct (Nat.lt_ge_cases i 2) as [Hi|Hi].
  - left. split; [exact Hi|]. now rewrite nth_error_app1 in H.
  - right. rewrite nth_error_app2 in H by exact Hi.
    change (length [StartRuntime; ControlPlaneInit]) with 2 in H.
    destruct (Nat.lt_ge_cases (i - 2) (S n)) as [Hp|Hp].
    + left. split; [lia|].
      rewrite nth_error_app1 in H by (rewrite repeat_length; exact Hp).
      apply nth_error_In in H. exact (repeat_spec _ _ _ H).
    + right. split; [lia|].
      rewrite nth_error_app2 in H by (rewrite repeat_length; exact Hp).
      rewrite repeat_length in H.
      replace (i - (n + 3)) with (i - 2 - S n) by lia. exact H.
Qed.

Lemma canonical_registration (n i : nat) (r : string) :
  nth_error (canonical n) i = Some (RepoRegistration r) -> i < n + 9.
Proof.
  intros H. apply canonical_nth in H as [[Hi H]|[[Hi H]|[Hi H]]].
  - destruct i as [|[|i]]; cbn in H; try discriminate H; lia.
  - discriminate H.
  - remember (i - (n + 3)) as k eqn:Hk.
    do 6 (destruct k as [|k]; [cbn in H; try discriminate H; lia|]).
    exfalso.
    do 11 (destruct k as [|k]; [cbn in H; discriminate H|]).
    destruct k; discriminate H.
Qed.

Lemma canonical_install (n j : nat) (c : string) :
  nth_error (canonical n) j = Some (ChartInstall c) -> n + 10 <= j.
Proof.
  intros H. apply canonical_nth in H as [[Hj H]|[[Hj H]|[Hj H]]].
  - destruct j as [|[|j]]; cbn in H; try discriminate H; lia.
  - discriminate H.
  - remember (j - (n + 3)) as k eqn:Hk.
    do 7 (destruct k as [|k]; [cbn in H; discriminate H|]).
    lia.
Qed.

(** C2 -- canonical order of a successful run: when [main] returns
    normally, the stages of its trace are, in this order: start of the
    runtime and kubelet, control-plane init, the readiness attempts, taint
    removal, Gateway CRDs, the four repository registrations (cilium,
    kyverno, rook, gitops), host-address discovery, the cilium install, the
    kyverno namespace and install, the rook-ceph namespace, overrides,
    operator and cluster installs, the weave-gitops namespace and install,
    the default policies; and every repository registration comes before
    every chart install. *)
Theorem stages_in_canonical_order (Y1 Y2 Y3 Y4 : string) (env : Env) (fuel : nat) :
  fst (main Y1 Y2 Y3 Y4 env fuel init) = Ret tt ->
  (exists n,
      stages (trace (snd (main Y1 Y2 Y3 Y4 env fuel init)))
      = [StartRuntime; ControlPlaneInit]
          ++ repeat ReadinessPoll (S n)
          ++ [ TaintRemoval; GatewayCRDs;
               RepoRegistration "cilium"; RepoRegistration "kyverno";
               RepoRegistration "rook"; RepoRegistration "gitops";
               HostAddress; ChartInstall "cilium";
               NamespaceCreation "kyverno"; ChartInstall "kyverno";
               NamespaceCreation "rook-ceph"; StorageOverrides;
               ChartInstall "rook-ceph"; ChartInstall "rook-ceph-cluster";
               NamespaceCreation "weave-gitops"; ChartInstall "weave-gitops";
               DefaultPolicies ])
  /\ (forall i j r c,
         nth_error (stages (trace (snd (main Y1 Y2 Y3 Y4 env fuel init)))) i
         = Some (RepoRegistration r) ->
         nth_error (stages (trace (snd (main Y1 Y2 Y3 Y4 env fuel init)))) j
         = Some (ChartInstall c) ->
         i < j).
Proof.
  intros Hret.
  destruct (main_layout Y1 Y2 Y3 Y4 env fuel) as (_ & _ & H).
  destruct (H Hret) as [[n Hn] _].
  split.
  - exists n. exact Hn.
  - intros i j r c Hi Hj. rewrite Hn in Hi, Hj.
    apply canonical_registration in Hi. apply canonical_install in Hj. lia.
Qed.

Lemma stages_in_canonical_order_witness :
  exists n, stages (trace (snd (main "" "" "" "" (env_late 2) 3 init))) = canonical n.
Proof.
  destruct (stages_in_canonical_order "" "" "" "" (env_late 2) 3) as [[n Hn] _].
  - vm_compute. reflexivity.
  - exists n. exact Hn.
Defined.

(** C10 -- the handle each chart is installed through: in every run, each
    chart install goes through a Helm client built for the namespace of the
    chart spec, except the cilium install, which goes through the client
    built for "default" while its spec names "kube-system"; and a run that
    returns normally has made exactly the five installs, with these
    release, handle and spec namespaces. *)
Theorem install_handle_namespaces (Y1 Y2 Y3 Y4 : string) (env : Env) (fuel : nat) :
  (forall op c spec,
      In (op, c, spec) (installs (trace (snd (main Y1 Y2 Y3 Y4 env fuel init)))) ->
      (ReleaseName spec = "cilium"
       /\ opt_Namespace (hc_options c) = "default"
       /\ Namespace spec = "kube-system")
      \/ (ReleaseName spec <> "cilium"
          /\ opt_Namespace (hc_options c) = Namespace spec))
  /\ (fst (main Y1 Y2 Y3 Y4 env fuel init) = Ret tt ->
      map install_namespaces (installs (trace (snd (main Y1 Y2 Y3 Y4 env fuel init))))
      = [ ("cilium", "default", "kube-system");
          ("kyverno", "kyverno", "kyverno");
          ("rook-ceph", "rook-ceph", "rook-ceph");
          ("rook-ceph-cluster", "rook-ceph", "rook-ceph");
          ("weave-gitops", "weave-gitops", "weave-gitops") ]).
Proof.
  destruct (main_layout Y1 Y2 Y3 Y4 env fuel) as (Hall & _ & Hret).
  split.
  - intros op c spec Hin.
    rewrite forallb_forall in Hall. specialize (Hall _ Hin). cbn in Hall.
    destruct (String.eqb_spec (ReleaseName spec) "cilium") as [Hc|Hc].
    + left. apply andb_prop in Hall as [H1 H2].
      apply String.eqb_eq in H1, H2. auto.
    + right. apply String.eqb_eq in Hall. auto.
  - intros H. exact (proj2 (Hret H)).
Qed.

Lemma install_handle_namespaces_witness :
  map install_namespaces (installs (trace (snd (main "" "" "" "" env_ok 1 init))))
  = [ ("cilium", "default", "kube-system");
      ("kyverno", "kyverno", "kyverno");
      ("rook-ceph", "rook-ceph", "rook-ceph");
      ("rook-ceph-cluster", "rook-ceph", "rook-ceph");
      ("weave-gitops", "weave-gitops", "weave-gitops") ].
Proof.
  apply (proj2 (install_handle_namespaces "" "" "" "" env_ok 1)).
  vm_compute. reflexivity.
Defined.

(** C5 at a run in which every collaborator succeeds: the kyverno and the
    weave-gitops charts are installed with the plain install operation
    (through [InstallSpecWithNSClient]); only cilium, rook-ceph and
    rook-ceph-cluster go through install-or-upgrade. *)
Theorem install_operations_of_full_run :
  map (fun i => (fst (fst i), ReleaseName (snd i)))
      (installs (trace (snd (main "" "" "" "" env_ok 1 init))))
  = [ (OpInstallOrUpgrade, "cilium");
      (OpInstall, "kyverno");
      (OpInstallOrUpgrade, "rook-ceph");
      (OpInstallOrUpgrade, "rook-ceph-cluster");
      (OpInstall, "weave-gitops") ].
Proof. vm_compute. reflexivity. Qed.

(** ** The cached credentials, on every path of [main] *)

Lemma client_blobs_app (a b : list Event) :
  client_blobs (a ++ b) = client_blobs a ++ client_blobs b.
Proof. apply flat_map_app. Qed.

Lemma client_blobs_polling (ps : list Event) :
  forallb is_polling ps = true -> client_blobs ps = [].
Proof.
  unfold client_blobs.
  induction ps as [|e ps IH]; cbn; [reflexivity|].
  intros H. apply andb_prop in H as [He Hps].
  rewrite (IH Hps). destruct e; try discriminate He; reflexivity.
Qed.

Lemma ncalls_read_polling (ps : list Event) :
  forallb is_polling ps = true -> ncalls KReadFile ps = 0.
Proof.
  unfold ncalls.
  induction ps as [|e ps IH]; cbn; [reflexivity|].
  intros H. apply andb_prop in H as [He Hps].
  destruct e; try discriminate He; cbn; auto.
Qed.

Lemma ncalls_build_polling (ps : list Event) :
  forallb is_polling ps = true -> ncalls KBuildConfig ps = 0.
Proof.
  unfold ncalls.
  induction ps as [|e ps IH]; cbn; [reflexivity|].
  intros H. apply andb_prop in H as [He Hps].
  destruct e; try discriminate He; cbn; auto.
Qed.

Lemma credential_reads_bound (tr : list Event) :
  credential_reads tr <= ncalls KBuildConfig tr + ncalls KReadFile tr.
Proof.
  unfold credential_reads, ncalls.
  induction tr as [|e tr IH]; cbn [filter length]; [lia|].
  destruct e; cbn [reads_credentials kind_of Kind_eqb]; cbn [length];
    try lia; destruct (String.eqb _ _); cbn [length]; lia.
Qed.

Ltac count_reads :=
  rewrite ?ncalls_app;
  repeat match goal with
         | H : forallb is_polling ?ps = true |- context [ncalls KReadFile ?ps] =>
             rewrite (ncalls_read_polling ps H)
         | H : forallb is_polling ?ps = true |- context [ncalls KBuildConfig ?ps] =>
             rewrite (ncalls_build_polling ps H)
         end.

Ltac count_reads_in E :=
  cbn [trace] in E; rewrite ?ncalls_app in E;
  repeat match type of E with
         | context [ncalls KReadFile ?ps] =>
             match goal with
             | H : forallb is_polling ps = true |- _ =>
                 rewrite (ncalls_read_polling ps H) in E
             end
         end;
  cbn [ncalls filter kind_of Kind_eqb length Nat.add] in E.

Ltac read_once_body :=
  unfold read_once; cbn [trace kubeConfig];
  split;
  [ split; count_reads; cbn; lia
  | split;
    [ rewrite ?client_blobs_app;
      repeat match goal with
             | H : forallb is_polling ?ps = true |- context [client_blobs ?ps] =>
                 rewrite (client_blobs_polling ps H)
             end;
      cbn [client_blobs client_blob flat_map app];
      repeat (apply Forall_cons;
              [ match goal with
                | E : _ = read_file _ 0 _ |- _ => rewrite <- E; reflexivity
                end | ]);
      apply Forall_nil
    | first
        [ left; reflexivity
        | right;
          match goal with
          | E : _ = read_file _ 0 _ |- _ => rewrite <- E; reflexivity
          end ] ] ].

(** A path on which the file was read empty without error and an install
    through the empty blob returned nil is excluded by [Hsafe]. *)
Ltac read_once_leaf Hsafe :=
  repeat match goal with
         | E : _ = read_file _ (ncalls KReadFile (trace _)) _ |- _ => count_reads_in E
         end;
  first
    [ exfalso;
      match goal with
      | E : ([], None) = read_file _ 0 _,
        I : None = install_or_upgrade _ _ _ _ |- _ =>
          refine (Hsafe (eq_sym E) _ _ _ _ (eq_sym I)); reflexivity
      end
    | read_once_body ].

Lemma main_read_once (Y1 Y2 Y3 Y4 : string) (env : Env) (fuel : nat) :
  (read_file env 0 admin_conf = ([], None) -> empty_credentials_refused env) ->
  wp (main Y1 Y2 Y3 Y4 env fuel) (read_once env) init.
Proof.
  intros Hsafe. unfold main, init. wp_run.
  all: read_once_leaf Hsafe.
Qed.

Lemma in_client_blobs (tr : list Event) (opts : KubeConfClientOptions) (err : option error) :
  In (ENewClientFromKubeConf opts err) tr -> In (opt_KubeConfig opts) (client_blobs tr).
Proof.
  intros H. unfold client_blobs. apply in_flat_map.
  exists (ENewClientFromKubeConf opts err). split; [exact H | now left].
Qed.

(** C7 (amended) -- the credentials file is read at most twice, once for
    the cluster client and once for the cache: in every run (other than one
    in which the file is read empty without error and a chart install
    through the empty blob is nevertheless accepted), the file
    /etc/kubernetes/admin.conf is loaded at most once by
    BuildConfigFromFlags and read at most once by [initKubeConf], at most
    two reads in all; every Helm client construction is given the blob of
    that one read, and the cached [kubeConfig] is either still empty or that
    blob. *)
Theorem credentials_read_once (Y1 Y2 Y3 Y4 : string) (env : Env) (fuel : nat) :
  (read_file env 0 admin_conf = ([], None) -> empty_credentials_refused env) ->
  ncalls KReadFile (trace (snd (main Y1 Y2 Y3 Y4 env fuel init))) <= 1
  /\ ncalls KBuildConfig (trace (snd (main Y1 Y2 Y3 Y4 env fuel init))) <= 1
  /\ credential_reads (trace (snd (main Y1 Y2 Y3 Y4 env fuel init))) <= 2
  /\ (forall opts err,
         In (ENewClientFromKubeConf opts err) (trace (snd (main Y1 Y2 Y3 Y4 env fuel init))) ->
         opt_KubeConfig opts = fst (read_file env 0 admin_conf))
  /\ (kubeConfig (snd (main Y1 Y2 Y3 Y4 env fuel init)) = []
      \/ kubeConfig (snd (main Y1 Y2 Y3 Y4 env fuel init)) = fst (read_file env 0 admin_conf)).
Proof.
  intros Hsafe.
  destruct (main_read_once Y1 Y2 Y3 Y4 env fuel Hsafe) as ((Hn & Hb) & Hall & Hkc).
  split; [exact Hn|]. split; [exact Hb|].
  split.
  { assert (H := credential_reads_bound (trace (snd (main Y1 Y2 Y3 Y4 env fuel init)))).
    lia. }
  split; [|exact Hkc].
  intros opts err Hin. rewrite Forall_forall in Hall.
  apply Hall. exact (in_client_blobs _ _ _ Hin).
Qed.

Lemma credentials_read_once_witness :
  ncalls KReadFile (trace (snd (main "" "" "" "" env_ok 1 init))) <= 1
  /\ credential_reads (trace (snd (main "" "" "" "" env_ok 1 init))) <= 2.
Proof.
  destruct (credentials_read_once "" "" "" "" env_ok 1) as (H1 & _ & H2 & _).
  - intros H. discriminate H.
  - split; assumption.
Defined.

(** C7 as stated fails in every complete run: building the cluster client
    loads /etc/kubernetes/admin.conf (BuildConfigFromFlags), and the first
    Helm client construction reads the same file again for the cache. *)
Lemma credentials_read_once_counterexample :
  credential_reads (trace (snd (main "" "" "" "" env_ok 1 init))) = 2
  /\ ~ credential_reads (trace (snd (main "" "" "" "" env_ok 1 init))) <= 1.
Proof.
  assert (H : credential_reads (trace (snd (main "" "" "" "" env_ok 1 init))) = 2)
    by (vm_compute; reflexivity).
  split; [exact H|]. rewrite H. lia.
Qed.

(** ** The host address in the cilium values *)

Example ip_text_examples :
  ip_text "10.0.0.5" = true /\ ip_text "fe80::1" = true /\ ip_text "K8SHOST" = false.
Proof. repeat split. Qed.

Lemma take_drop (j : nat) (s : string) : (take j s ++ drop j s)%string = s.
Proof.
  revert s; induction j as [|j IH]; intros [|c s]; cbn; try reflexivity.
  now rewrite IH.
Qed.

Lemma drop_drop (j k : nat) (s : string) : drop k (drop j s) = drop (j + k) s.
Proof.
  revert s; induction j as [|j IH]; intros s; cbn; [reflexivity|].
  destruct s as [|c s]; [now destruct k | apply IH].
Qed.

Lemma prefix_split (tok s : string) :
  String.prefix tok s = true -> s = (tok ++ drop (String.length tok) s)%string.
Proof.
  revert s; induction tok as [|c tok IH]; intros s H; cbn; [reflexivity|].
  destruct s as [|d s]; cbn in H; [discriminate H|].
  destruct (Ascii.ascii_dec c d) as [->|]; [|discriminate H].
  now rewrite <- (IH s H).
Qed.

Lemma prefix_length (tok s : string) :
  String.prefix tok s = true -> String.length tok <= String.length s.
Proof.
  revert s; induction tok as [|c tok IH]; intros s H; cbn; [lia|].
  destruct s as [|d s]; cbn in H; [discriminate H|].
  destruct (Ascii.ascii_dec c d); [|discriminate H].
  cbn. apply IH in H. lia.
Qed.

Lemma length_drop (j : nat) (s : string) :
  String.length (drop j s) = String.length s - j.
Proof.
  revert s; induction j as [|j IH]; intros [|c s]; cbn; auto; lia.
Qed.

Lemma length_take (j : nat) (s : string) :
  j <= String.length s -> String.length (take j s) = j.
Proof.
  revert s; induction j as [|j IH]; intros [|c s]; cbn; intros H; auto; try lia.
  rewrite IH; lia.
Qed.

Lemma length_app (a b : string) :
  String.length (a ++ b) = String.length a + String.length b.
Proof. induction a as [|c a IH]; cbn; [reflexivity | now rewrite IH]. Qed.

Lemma get_drop (i k : nat) (s : string) : String.get k (drop i s) = String.get (i + k) s.
Proof.
  revert s; induction i as [|i IH]; intros s; cbn; [reflexivity|].
  destruct s as [|c s]; [now destruct k | apply IH].
Qed.

Lemma get_app_l (a b : string) (i : nat) :
  i < String.length a -> String.get i (a ++ b) = String.get i a.
Proof. intros H. symmetry. now apply append_correct1. Qed.

Lemma get_app_r (a b : string) (i : nat) :
  String.get (String.length a + i) (a ++ b) = String.get i b.
Proof. rewrite Nat.add_comm. symmetry. apply append_correct2. Qed.

Lemma prefix_get (tok s : string) (k : nat) :
  String.prefix tok s = true -> k < String.length tok ->
  String.get k s = String.get k tok.
Proof.
  revert s k; induction tok as [|c tok IH]; intros s k H Hk; cbn in Hk; [lia|].
  destruct s as [|d s]; cbn in H; [discriminate H|].
  destruct (Ascii.ascii_dec c d) as [->|]; [|discriminate H].
  destruct k as [|k]; cbn; [reflexivity|]. apply IH; [exact H | lia].
Qed.

Lemma get_prefix (tok s : string) :
  (forall k, k < String.length tok -> String.get k s = String.get k tok) ->
  String.prefix tok s = true.
Proof.
  revert s; induction tok as [|c tok IH]; intros s H; [now destruct s|].
  destruct s as [|d s].
  - specialize (H 0). cbn in H. discriminate H. lia.
  - cbn. assert (H0 := H 0). cbn in H0. injection H0 as ->; [|lia].
    destruct (Ascii.ascii_dec c c) as [_|Hn]; [|now elim Hn].
    apply IH. intros k Hk. apply (H (S k)). cbn. lia.
Qed.

Lemma get_all_chars (f : ascii -> bool) (s : string) (i : nat) (c : ascii) :
  all_chars f s = true -> String.get i s = Some c -> f c = true.
Proof.
  revert i; induction s as [|d s IH]; intros i Hall Hget; [discriminate Hget|].
  cbn in Hall. apply andb_prop in Hall as [Hd Hs].
  destruct i as [|i]; cbn in Hget.
  - now injection Hget as <-.
  - exact (IH i Hs Hget).
Qed.

Lemma get_some (s : string) (i : nat) :
  i < String.length s -> exists c, String.get i s = Some c.
Proof.
  revert i; induction s as [|d s IH]; intros i H; cbn in H; [lia|].
  destruct i as [|i]; cbn; [now exists d | apply IH; lia].
Qed.

Lemma Index_sound (tok s : string) (j : nat) :
  Index s tok = Some j -> occurs_at tok s j = true.
Proof.
  unfold occurs_at.
  revert j; induction s as [|c s IH]; intros j H; cbn [Index] in H.
  - destruct (String.prefix tok "") eqn:E; [|discriminate H].
    injection H as <-. exact E.
  - destruct (String.prefix tok (String c s)) eqn:E.
    + injection H as <-. exact E.
    + destruct (Index s tok) as [i|] eqn:Ei; [|discriminate H].
      injection H as <-. cbn [drop]. now apply IH.
Qed.

Lemma Index_first (tok s : string) (j : nat) :
  occurs_at tok s j = true ->
  (forall i, i < j -> occurs_at tok s i = false) ->
  Index s tok = Some j.
Proof.
  unfold occurs_at.
  revert s; induction j as [|j IH]; intros s Hj Hlt.
  - cbn [drop] in Hj. destruct s; cbn [Index]; now rewrite Hj.
  - assert (H0 := Hlt 0 ltac:(lia)). cbn [drop] in H0.
    destruct s as [|c s]; [cbn [drop] in Hj; congruence|].
    cbn [Index]. rewrite H0. rewrite (IH s); [reflexivity | exact Hj |].
    intros i Hi. apply (Hlt (S i)). lia.
Qed.

Lemma Index_none (tok s : string) :
  (forall i, occurs_at tok s i = false) -> Index s tok = None.
Proof.
  intros H. destruct (Index s tok) as [j|] eqn:E; [|reflexivity].
  apply Index_sound in E. now rewrite H in E.
Qed.

Lemma occurs_at_bound (tok s : string) (i : nat) :
  tok <> EmptyString -> occurs_at tok s i = true ->
  i + String.length tok <= String.length s.
Proof.
  unfold occurs_at. intros Hne H. apply prefix_length in H as Hl.
  rewrite length_drop in Hl.
  destruct tok as [|c tok]; [now elim Hne|]. cbn in *. lia.
Qed.

Lemma occurrences_single (tok s : string) (p : nat) :
  tok <> EmptyString ->
  occurrences tok s = [p] ->
  occurs_at tok s p = true /\ forall i, occurs_at tok s i = true -> i = p.
Proof.
  intros Hne Hocc.
  assert (Hin : forall i, In i (occurrences tok s) <-> i = p).
  { intros i. rewrite Hocc. cbn. intuition. }
  split.
  - assert (H : In p (occurrences tok s)) by (now apply Hin).
    apply filter_In in H. tauto.
  - intros i Hi. apply Hin. apply filter_In. split; [|exact Hi].
    apply in_seq. apply (occurs_at_bound tok s i Hne) in Hi.
    destruct tok; [now elim Hne|]. cbn in Hi. lia.
Qed.

Lemma get_middle (pre mid post : string) (i : nat) :
  i < String.length mid ->
  String.get (String.length pre + i) (pre ++ mid ++ post) = String.get i mid.
Proof. intros H. rewrite get_app_r. now apply get_app_l. Qed.

Lemma get_after (pre mid post : string) (i : nat) :
  String.get (String.length pre + (String.length mid + i)) (pre ++ mid ++ post)
  = String.get i post.
Proof. now rewrite !get_app_r. Qed.

Lemma get_before (pre rest : string) (i : nat) :
  i < String.length pre -> String.get i (pre ++ rest) = String.get i pre.
Proof. apply get_app_l. Qed.

(** A character of an address text is none of the letters of the
    placeholder. *)
Lemma ip_char_not_letter (ip : string) (i k : nat) :
  all_chars ip_char ip = true ->
  k < 7 -> k <> 1 ->
  String.get i ip = String.get k placeholder ->
  i < String.length ip ->
  False.
Proof.
  intros Hall Hk Hk1 Hget Hi.
  destruct (get_some ip i Hi) as [c Hc].
  assert (Hip := get_all_chars ip_char ip i c Hall Hc).
  rewrite Hc in Hget.
  do 7 (destruct k as [|k];
        [ first [ now elim Hk1
                | cbn in Hget; injection Hget as ->; discriminate Hip ] | ]).
  lia.
Qed.

(** Once the only occurrence of the placeholder is replaced by an address
    text, no occurrence is left. *)
Lemma no_placeholder_left (tmpl ip : string) (p : nat) :
  occurs_at placeholder tmpl p = true ->
  (forall i, occurs_at placeholder tmpl i = true -> i = p) ->
  ip_text ip = true ->
  forall q, occurs_at placeholder (take p tmpl ++ ip ++ drop (p + 7) tmpl) q = false.
Proof.
  intros Hp Huniq Hip q.
  apply andb_prop in Hip as [HL Hall]. apply Nat.leb_le in HL.
  assert (Hb : p + 7 <= String.length tmpl)
    by (apply (occurs_at_bound placeholder tmpl p); [discriminate | exact Hp]).
  assert (Hlen : String.length (take p tmpl) = p) by (apply length_take; lia).
  assert (Htmpl : tmpl = (take p tmpl ++ placeholder ++ drop (p + 7) tmpl)%string).
  { rewrite <- (take_drop p tmpl) at 1. f_equal.
    rewrite <- drop_drop. apply (prefix_split placeholder). exact Hp. }
  set (pre := take p tmpl) in *. set (post := drop (p + 7) tmpl) in *.
  destruct (occurs_at placeholder (pre ++ ip ++ post) q) eqn:Hq; [exfalso|reflexivity].
  assert (G : forall k, k < 7 ->
                String.get (q + k) (pre ++ ip ++ post) = String.get k placeholder).
  { intros k Hk. rewrite <- get_drop. apply prefix_get; [exact Hq | exact Hk]. }
  destruct (Nat.le_gt_cases (q + 7) p) as [Ha|Ha].
  - (* the occurrence lies before the address *)
    assert (Hocc : occurs_at placeholder tmpl q = true).
    { apply get_prefix. intros k Hk. change (String.length placeholder) with 7 in Hk.
      rewrite get_drop, Htmpl, get_before by lia.
      rewrite <- (G k Hk). symmetry. apply get_before. lia. }
    apply Huniq in Hocc. lia.
  - destruct (Nat.le_gt_cases (p + String.length ip) q) as [Hc|Hc].
    + (* the occurrence lies after the address *)
      assert (Hocc : occurs_at placeholder tmpl (q - String.length ip + 7) = true).
      { apply get_prefix. intros k Hk. change (String.length placeholder) with 7 in Hk.
        rewrite get_drop, Htmpl.
        replace (q - String.length ip + 7 + k)
          with (String.length pre + (String.length placeholder
                                     + (q - String.length ip - p + k)))
          by (change (String.length placeholder) with 7; lia).
        rewrite get_after. rewrite <- (G k Hk).
        replace (q + k)
          with (String.length pre + (String.length ip + (q - String.length ip - p + k)))
          by lia.
        now rewrite get_after. }
      apply Huniq in Hocc. lia.
    + (* the occurrence overlaps the address *)
      destruct (Nat.le_gt_cases p q) as [Hs|Hs].
      * assert (G0 := G 0 ltac:(lia)).
        replace (q + 0) with (String.length pre + (q - p)) in G0 by lia.
        rewrite get_middle in G0 by lia.
        apply (ip_char_not_letter ip (q - p) 0 Hall); [lia | lia | exact G0 | lia].
      * destruct (Nat.eq_dec (p - q) 1) as [H1|H1].
        -- assert (G2 := G 2 ltac:(lia)).
           replace (q + 2) with (String.length pre + 1) in G2 by lia.
           rewrite get_middle in G2 by lia.
           apply (ip_char_not_letter ip 1 2 Hall); [lia | lia | exact G2 | lia].
        -- assert (Gk := G (p - q) ltac:(lia)).
           replace (q + (p - q)) with (String.length pre + 0) in Gk by lia.
           rewrite get_middle in Gk by lia.
           apply (ip_char_not_letter ip 0 (p - q) Hall); [lia | exact H1 | exact Gk | lia].
Qed.

Lemma Index_complete (tok s : string) (j : nat) :
  occurs_at tok s j = true -> Contains s tok = true.
Proof.
  unfold occurs_at, Contains.
  revert s; induction j as [|j IH]; intros s H.
  - cbn [drop] in H. destruct s; cbn [Index]; now rewrite H.
  - destruct s as [|c s].
    + cbn [drop] in H. cbn [Index]. now rewrite H.
    + cbn [drop] in H. cbn [Index].
      destruct (String.prefix tok (String c s)); [reflexivity|].
      specialize (IH s H). destruct (Index s tok); [reflexivity | discriminate IH].
Qed.

Lemma occurs_in_middle (pre mid post : string) :
  occurs_at mid (pre ++ mid ++ post) (String.length pre) = true.
Proof.
  apply get_prefix. intros k Hk. rewrite get_drop. now apply get_middle.
Qed.

(** C6 -- host-address substitution: the cilium value template
    (values/cilium.yaml, embedded at build time) is a parameter; when it
    holds the placeholder K8SHOST exactly once, at position [p],
    then for every address text (two or more characters among the digits,
    a-f, the dot and the colon) the payload of the cilium chart spec is the
    template with that occurrence replaced by the address: it contains the
    address and no occurrence of the placeholder. *)
Theorem host_address_substituted (CiliumYaml defaultIp : string) (p : nat) :
  occurrences placeholder CiliumYaml = [p] ->
  ip_text defaultIp = true ->
  CiliumYaml = (take p CiliumYaml ++ placeholder ++ drop (p + 7) CiliumYaml)%string
  /\ ValuesYaml (ciliumSpec CiliumYaml defaultIp)
     = (take p CiliumYaml ++ defaultIp ++ drop (p + 7) CiliumYaml)%string
  /\ Contains (ValuesYaml (ciliumSpec CiliumYaml defaultIp)) defaultIp = true
  /\ Contains (ValuesYaml (ciliumSpec CiliumYaml defaultIp)) placeholder = false.
Proof.
  intros Hocc Hip.
  destruct (occurrences_single placeholder CiliumYaml p) as [Hp Huniq];
    [discriminate | exact Hocc |].
  assert (Hidx : Index CiliumYaml placeholder = Some p).
  { apply Index_first; [exact Hp|].
    intros i Hi. destruct (occurs_at placeholder CiliumYaml i) eqn:E; [|reflexivity].
    apply Huniq in E. lia. }
  assert (Hne : String.eqb placeholder defaultIp = false).
  { apply String.eqb_neq. intros <-. discriminate Hip. }
  assert (Hval : ValuesYaml (ciliumSpec CiliumYaml defaultIp)
                 = (take p CiliumYaml ++ defaultIp ++ drop (p + 7) CiliumYaml)%string).
  { cbn [ciliumSpec ValuesYaml]. unfold Replace.
    change "K8SHOST" with placeholder. rewrite Hne.
    change (replace_upto 1 CiliumYaml placeholder defaultIp
            = (take p CiliumYaml ++ defaultIp ++ drop (p + 7) CiliumYaml)%string).
    cbn [replace_upto]. rewrite Hidx. reflexivity. }
  split; [|split; [exact Hval | split]].
  - rewrite <- (take_drop p CiliumYaml) at 1. f_equal.
    rewrite <- drop_drop. apply (prefix_split placeholder). exact Hp.
  - rewrite Hval.
    apply (Index_complete defaultIp _ (String.length (take p CiliumYaml))).
    apply occurs_in_middle.
  - rewrite Hval. unfold Contains.
    rewrite Index_none; [reflexivity|].
    apply no_placeholder_left; assumption.
Qed.

Lemma host_address_substituted_witness :
  ValuesYaml (ciliumSpec "k8sServiceHost: K8SHOST" "10.0.0.5") = "k8sServiceHost: 10.0.0.5"
  /\ Contains (ValuesYaml (ciliumSpec "k8sServiceHost: K8SHOST" "10.0.0.5")) placeholder
     = false.
Proof.
  destruct (host_address_substituted "k8sServiceHost: K8SHOST" "10.0.0.5" 16)
    as (_ & Hval & _ & Hno).
  - reflexivity.
  - reflexivity.
  - split; [exact Hval | exact Hno].
Defined.

(** The payload checked above is the one the installer receives: in every
    run, the values of a cilium install are the template with the address
    returned by the discovery dial substituted by [ciliumSpec]. *)
Lemma cilium_payload_from_discovery (Y1 Y2 Y3 Y4 : string) (env : Env) (fuel : nat)
      (c : HelmClient) (spec : ChartSpec) (err : option error) :
  In (EInstallOrUpgradeChart c spec err) (trace (snd (main Y1 Y2 Y3 Y4 env fuel init))) ->
  ReleaseName spec = "cilium" ->
  exists network address ip,
    In (EDial network address ip None) (trace (snd (main Y1 Y2 Y3 Y4 env fuel init)))
    /\ ValuesYaml spec = ValuesYaml (ciliumSpec Y1 ip).
Proof.
  intros Hin Hrel.
  destruct (main_layout Y1 Y2 Y3 Y4 env fuel) as (_ & Hincl & _).
  assert (Hp : In (ValuesYaml spec)
                  (cilium_payloads (trace (snd (main Y1 Y2 Y3 Y4 env fuel init))))).
  { unfold cilium_payloads. apply in_flat_map.
    exists (EInstallOrUpgradeChart c spec err). split; [exact Hin|].
    cbn [install_of]. rewrite Hrel. now left. }
  apply Hincl in Hp. apply in_map_iff in Hp as (ip & Hval & Hd).
  unfold dialed in Hd. apply in_flat_map in Hd as (e & He & Hip).
  destruct e as [| | | | | | | | | | |network address ip' [e'|]|]; cbn in Hip; try contradiction.
  destruct Hip as [->|[]].
  exists network, address, ip. split; [exact He | now symmetry].
Qed.

(** ** Further properties of the runs of [main] *)

Lemma deps_app (a b : list Event) : deps (a ++ b) = deps a ++ deps b.
Proof. apply flat_map_app. Qed.

Lemma deps_polling (ps : list Event) :
  forallb is_polling ps = true -> deps ps = [].
Proof.
  unfold deps.
  induction ps as [|e ps IH]; cbn; [reflexivity|].
  intros H. apply andb_prop in H as [He Hps].
  rewrite (IH Hps). destruct e; try discriminate He; reflexivity.
Qed.

Lemma ncalls_polling (k : Kind) (ps : list Event) :
  forallb is_polling ps = true ->
  (negb (Kind_eqb KPodsList k) && negb (Kind_eqb KSleep k))%bool = true ->
  ncalls k ps = 0.
Proof.
  unfold ncalls. intros Hps Hk.
  induction ps as [|e ps IH]; cbn; [reflexivity|].
  cbn in Hps. apply andb_prop in Hps as [He Hps].
  destruct e; try discriminate He; destruct k; try discriminate Hk; cbn; auto.
Qed.

Lemma uses_clients_polling (ps : list Event) :
  forallb is_polling ps = true ->
  forallb (polls_with the_client) ps = true ->
  forallb uses_clients ps = true.
Proof.
  induction ps as [|e ps IH]; cbn [forallb]; [reflexivity|].
  intros H1 H2. apply andb_prop in H1 as [He Hps]. apply andb_prop in H2 as [Hc Hcs].
  rewrite (IH Hps Hcs), andb_true_r.
  destruct e; try discriminate He; [exact Hc | reflexivity].
Qed.

Lemma Clientset_eqb_refl (cs : Clientset) : Clientset_eqb cs cs = true.
Proof. unfold Clientset_eqb. now rewrite !String.eqb_refl. Qed.

Lemma retry_events_polls_with env cs c n :
  forallb (polls_with cs) (retry_events env cs c n) = true.
Proof.
  revert c; induction n as [|n IH]; intros c; [reflexivity|].
  rewrite retry_events_S. cbn [forallb polls_with list_event].
  rewrite Clientset_eqb_refl, (IH (S c)). reflexivity.
Qed.

Lemma retry_logs_plain env c n :
  filter is_fatal (retry_logs env c n) = []
  /\ filter is_success (retry_logs env c n) = [].
Proof.
  revert c; induction n as [|n IH]; intros c; [now split|].
  rewrite retry_logs_S. cbn. apply IH.
Qed.

(** The loop with everything it leaves behind: the stages, the client and
    the namespace of its listings, log entries that are neither fatal nor
    the success message; and when the fuel is spent, no listing was ready. *)
Lemma wp_poll_full env fuel cs (Q : Outcome unit -> State -> Prop) st :
  (forall n ps ls,
      forallb is_polling ps = true ->
      stages ps = repeat ReadinessPoll (S n) ->
      forallb (polls_with cs) ps = true ->
      filter is_fatal ls = [] ->
      filter is_success ls = [] ->
      Q (Ret tt) (mkState (trace st ++ ps) (logs st ++ ls) (kubeConfig st))) ->
  (forall ps ls,
      forallb is_polling ps = true ->
      stages ps = repeat ReadinessPoll fuel ->
      forallb (polls_with cs) ps = true ->
      filter is_fatal ls = [] ->
      filter is_success ls = [] ->
      (forall i, i < fuel ->
                 not_ready (listing env (ncalls KPodsList (trace st) + i)) = true) ->
      Q Diverge (mkState (trace st ++ ps) (logs st ++ ls) (kubeConfig st))) ->
  wp (poll env fuel cs) Q st.
Proof.
  intros Hret Hdiv. unfold wp.
  destruct (first_ready env (ncalls KPodsList (trace st)) fuel)
    as [(n & Hn & Hlt & Hr)|Hall].
  - rewrite (poll_ready env cs n); auto. cbn [fst snd].
    apply (Hret n).
    + rewrite forallb_app, retry_events_polling. reflexivity.
    + apply stages_attempts.
    + rewrite forallb_app, retry_events_polls_with. cbn.
      now rewrite Clientset_eqb_refl.
    + rewrite filter_app, (proj1 (retry_logs_plain env _ n)). reflexivity.
    + rewrite filter_app, (proj2 (retry_logs_plain env _ n)). reflexivity.
  - rewrite poll_starved by exact Hall. cbn [fst snd].
    apply Hdiv.
    + apply retry_events_polling.
    + apply stages_retry_events.
    + apply retry_events_polls_with.
    + apply retry_logs_plain.
    + apply retry_logs_plain.
    + exact Hall.
Qed.

Ltac wp_split_full :=
  match goal with
  | |- wp (when (isErr ?e) _) _ _ => is_var e; destruct e; cbn [when isErr]
  | |- wp (when (Nat.eqb (length ?d) 0) _) _ _ =>
      is_var d; destruct d; cbn [when length Nat.eqb]
  | |- wp (match ?e with Some _ => _ | None => _ end) _ _ => is_var e; destruct e
  | |- wp (poll _ _ _) _ _ =>
      apply wp_poll_full;
      [ intros ?n ?ps ?ls ?Hpolling ?Hstages ?Hclient ?Hfatal ?Hsuccess
      | intros ?ps ?ls ?Hpolling ?Hstages ?Hclient ?Hfatal ?Hsuccess ?Hstarved ]
  end.

Ltac wp_run_full :=
  repeat first
    [ progress cbn [lift_post trace logs kubeConfig when isErr length Nat.eqb]
    | lazymatch goal with |- wp (bind _ _) _ _ => apply wp_bind end
    | wp_prim
    | wp_split_full
    | progress unfold helmClientForNs, initKubeConf, InstallSpecWithNSClient,
        GetDefaultIP ].

Lemma repeat_snoc {A} (a : A) (n : nat) : repeat a n ++ [a] = repeat a (S n).
Proof. induction n as [|n IH]; cbn; [reflexivity | now rewrite IH]. Qed.

Lemma starved_prefix (fuel : nat) :
  ([StartRuntime; ControlPlaneInit] ++ repeat ReadinessPoll fuel)
    ++ ReadinessPoll :: stages_after_poll
  = canonical fuel.
Proof.
  unfold canonical. rewrite <- app_assoc. f_equal.
  change (ReadinessPoll :: stages_after_poll) with ([ReadinessPoll] ++ stages_after_poll).
  now rewrite app_assoc, repeat_snoc.
Qed.

Ltac drop_polling :=
  repeat match goal with
         | H : forallb is_polling ?ps = true |- context [deps ?ps] =>
             rewrite (deps_polling ps H)
         | H : forallb is_polling ?ps = true |- context [installs ?ps] =>
             rewrite (installs_polling ps H)
         | H : forallb is_polling ?ps = true |- context [dialed ?ps] =>
             rewrite (dialed_polling ps H)
         | H : forallb is_polling ?ps = true |- context [ncalls KConnClose ?ps] =>
             rewrite (ncalls_polling KConnClose ps H eq_refl)
         | H : forallb is_polling ?ps = true |- context [ncalls KDial ?ps] =>
             rewrite (ncalls_polling KDial ps H eq_refl)
         | H : filter ?p ?ls = [] |- context [filter ?p ?ls] => rewrite H
         | H1 : forallb is_polling ?ps = true,
           H2 : forallb (polls_with _) ?ps = true |- context [forallb uses_clients ?ps] =>
             rewrite (uses_clients_polling ps H1 H2)
         end.

(** The trace and the log of a path, reassociated once: the four entries
    before the loop, what the loop added, and the entries after it. *)
Ltac flatten_state :=
  lazymatch goal with
  | |- run_shape _ _ _ (mkState ?T ?L _) =>
      let HT := fresh "HT" in
      let HL := fresh "HL" in
      eassert (HT : T = _) by (rewrite <- ?app_assoc; cbn [app]; reflexivity);
      eassert (HL : L = _) by (rewrite <- ?app_assoc; cbn [app]; reflexivity);
      match type of HT with
      | _ = ?a :: ?b :: ?c :: ?d :: (?ps ++ ?post) =>
          change (T = [a; b; c; d] ++ ps ++ post) in HT
      | _ = ?a :: ?b :: ?c :: ?d :: ?ps =>
          is_var ps;
          apply (fun E => eq_trans E (f_equal (app [a; b; c; d]) (eq_sym (app_nil_r ps))))
            in HT
      | _ => idtac
      end;
      match type of HL with
      | _ = ?a :: ?b :: ?c :: ?d :: (?ls ++ ?post) =>
          change (L = [a; b; c; d] ++ ls ++ post) in HL
      | _ = ?a :: ?b :: ?c :: ?d :: ?ls =>
          is_var ls;
          apply (fun E => eq_trans E (f_equal (app [a; b; c; d]) (eq_sym (app_nil_r ls))))
            in HL
      | _ => idtac
      end;
      rewrite HT, HL; clear HT HL
  end.

Ltac shape_stages :=
  rewrite ?stages_app;
  lazymatch goal with
  | Hs : stages ?ps = repeat _ (S ?n) |- _ =>
      rewrite Hs; exists n; eexists; rewrite <- ?app_assoc; reflexivity
  | Hs : stages ?ps = repeat _ ?f |- _ =>
      rewrite Hs; exists f, (ReadinessPoll :: stages_after_poll);
      rewrite app_nil_r; exact (starved_prefix f)
  | _ => exists 0; eexists; reflexivity
  end.

Ltac shape_leaf :=
  flatten_state;
  unfold run_shape; cbn [trace logs];
  split; [shape_stages|];
  split; [rewrite ?deps_app; drop_polling; eexists; reflexivity|];
  split; [rewrite ?installs_app; drop_polling; reflexivity|];
  split; [rewrite ?ncalls_app, ?dialed_app; drop_polling;
          split; [reflexivity | vm_compute; lia]|];
  split; [rewrite ?filter_app; drop_polling; split; reflexivity|];
  split;
  [ intros Hd;
    first
      [ discriminate Hd
      | split;
        [ lazymatch goal with
          | Hst : forall i, i < _ -> _ |- _ =>
              intros i Hi; specialize (Hst i Hi); exact Hst
          end
        | rewrite ?stages_app;
          lazymatch goal with
          | Hs : stages ?ps = repeat _ _ |- _ =>
              rewrite Hs; cbn; now rewrite app_nil_r
          end ] ]
  | rewrite ?forallb_app; drop_polling; reflexivity ].

Lemma main_run_shape (Y1 Y2 Y3 Y4 : string) (env : Env) (fuel : nat) :
  wp (main Y1 Y2 Y3 Y4 env fuel) (run_shape env fuel) init.
Proof.
  unfold main, init. wp_run_full.
  all: shape_leaf.
Qed.

Lemma filter_nil_all {A} (p : A -> bool) (l : list A) :
  filter p l = [] -> forall x, In x l -> p x = false.
Proof.
  intros Hnil x Hin. destruct (p x) eqn:E; [|reflexivity].
  exfalso. exact (filter_nil_not_in p l x Hnil Hin E).
Qed.

Lemma filter_repeat_poll (n : nat) :
  filter (fun s => negb (is_poll_stage s)) (repeat ReadinessPoll n) = [].
Proof. induction n as [|n IH]; cbn; auto. Qed.

Lemma one_shot_canonical_NoDup (n : nat) :
  NoDup (filter (fun s => negb (is_poll_stage s)) (canonical n)).
Proof.
  unfold canonical. rewrite !filter_app, filter_repeat_poll. cbn.
  repeat (apply NoDup_cons;
          [ cbn; intros H;
            repeat (destruct H as [H|H]; [discriminate H|]); exact H | ]).
  apply NoDup_nil.
Qed.

(** X1 -- every run follows the canonical order as far as it gets: the
    stages of any run, failed, still polling or complete, are a prefix of
    the canonical sequence, and no stage other than the readiness attempt
    is executed twice. *)
Theorem run_is_prefix_of_canonical_order (Y1 Y2 Y3 Y4 : string) (env : Env) (fuel : nat) :
  (exists n rest,
      stages (trace (snd (main Y1 Y2 Y3 Y4 env fuel init))) ++ rest = canonical n)
  /\ NoDup (one_shot_stages (trace (snd (main Y1 Y2 Y3 Y4 env fuel init)))).
Proof.
  destruct (main_run_shape Y1 Y2 Y3 Y4 env fuel) as ((n & rest & Hn) & _).
  split.
  - exists n, rest. exact Hn.
  - unfold one_shot_stages.
    assert (H := one_shot_canonical_NoDup n). rewrite <- Hn, filter_app in H.
    exact (NoDup_app_remove_r _ _ H).
Qed.

(** X2 -- the process exits only after a failed call: an exit always has
    status 1 and the last call of the run returned an error, while no
    earlier call did other than pod listings of the readiness loop and the
    close of the discovery socket, whose error is dropped; and in a run that
    returns normally no call returned an error other than those two
    kinds. *)
Theorem exit_only_after_failure (Y1 Y2 Y3 Y4 : string) (env : Env) (fuel : nat) :
  (forall c,
      fst (main Y1 Y2 Y3 Y4 env fuel init) = Exit c ->
      c = 1%Z
      /\ exists pre ev,
          trace (snd (main Y1 Y2 Y3 Y4 env fuel init)) = pre ++ [ev]
          /\ aborting ev = true
          /\ forall e, In e pre -> aborting e = false)
  /\ (fst (main Y1 Y2 Y3 Y4 env fuel init) = Ret tt ->
      forall e, In e (trace (snd (main Y1 Y2 Y3 Y4 env fuel init))) -> aborting e = false).
Proof.
  destruct (main_fail_fast Y1 Y2 Y3 Y4 env fuel)
    as [[Hnil Hne]|(pre & ev & ls & l1 & l2 & Ht & Hnil & Hab & Ho & _)].
  - split.
    + intros c Hc. now elim (Hne c).
    + intros _. exact (filter_nil_all aborting _ Hnil).
  - split.
    + intros c Hc. rewrite Ho in Hc. injection Hc as <-.
      split; [reflexivity|]. exists pre, ev.
      split; [exact Ht|]. split; [exact Hab|]. exact (filter_nil_all aborting _ Hnil).
    + intros Hr. rewrite Ho in Hr. discriminate Hr.
Qed.

Lemma exit_only_after_failure_witness :
  exists pre ev,
    trace (snd (main "" "" "" "" env_namespace_conflict 1 init)) = pre ++ [ev]
    /\ aborting ev = true.
Proof.
  destruct (proj1 (exit_only_after_failure "" "" "" "" env_namespace_conflict 1) 1%Z)
    as (_ & pre & ev & Ht & Hab & _).
  - vm_compute. reflexivity.
  - exists pre, ev. split; assumption.
Defined.

Lemma deps_full_install (l1 l2 : list Dep) (chart ns : string) :
  l1 ++ Installed chart ns :: l2 = deps_full ->
  In (Registered (chart_repo chart)) l1
  /\ (ns = "kube-system" \/ In (Created ns) l1).
Proof.
  unfold deps_full. intros H.
  do 12 (destruct l1 as [|? l1];
         [ cbn in H;
           first [ discriminate H
                 | injection H as -> -> _; split; [vm_compute; tauto | cbn; tauto] ]
         | cbn in H; injection H as -> H ]).
  destruct l1; discriminate H.
Qed.

Lemma deps_split (pre post : list Event) (e : Event) (d : Dep) :
  dep_of e = Some d -> deps (pre ++ e :: post) = deps pre ++ d :: deps post.
Proof.
  intros H. rewrite deps_app. f_equal. unfold deps. cbn [flat_map]. now rewrite H.
Qed.

Lemma install_dependencies (Y1 Y2 Y3 Y4 : string) (env : Env) (fuel : nat)
      (pre post : list Event) (e : Event) (op : InstallOp) (c : HelmClient)
      (spec : ChartSpec) :
  trace (snd (main Y1 Y2 Y3 Y4 env fuel init)) = pre ++ e :: post ->
  install_of e = Some (op, c, spec) ->
  In (Registered (chart_repo (ChartName spec))) (deps pre)
  /\ (Namespace spec = "kube-system" \/ In (Created (Namespace spec)) (deps pre)).
Proof.
  intros Htr He.
  destruct (main_run_shape Y1 Y2 Y3 Y4 env fuel) as (_ & (rest & Hd) & _).
  assert (Hdep : dep_of e = Some (Installed (ChartName spec) (Namespace spec))).
  { destruct e; try discriminate He; injection He as _ _ <-; reflexivity. }
  rewrite Htr, (deps_split pre post e _ Hdep), <- app_assoc in Hd. cbn [app] in Hd.
  exact (deps_full_install _ _ _ _ Hd).
Qed.

(** X4 -- a namespace exists before a chart is installed into it: in every
    run, each chart install whose spec names a namespace other than
    "kube-system" comes after a namespace creation of that name that
    returned no error. *)
Theorem namespace_created_before_install (Y1 Y2 Y3 Y4 : string) (env : Env) (fuel : nat)
        (pre post : list Event) (e : Event) (op : InstallOp) (c : HelmClient)
        (spec : ChartSpec) :
  trace (snd (main Y1 Y2 Y3 Y4 env fuel init)) = pre ++ e :: post ->
  install_of e = Some (op, c, spec) ->
  Namespace spec <> "kube-system" ->
  exists cs ns,
    In (ENamespacesCreate cs ns None) pre /\ ns_Name ns = Namespace spec.
Proof.
  intros Htr He Hns.
  destruct (install_dependencies Y1 Y2 Y3 Y4 env fuel pre post e op c spec Htr He)
    as [_ [Hk|Hin]]; [contradiction|].
  unfold deps in Hin. apply in_flat_map in Hin as (e' & He' & Hd).
  destruct e' as [| | | | | | | | | |cs ns [err|]| |]; cbn in Hd;
    try contradiction; try (destruct err; cbn in Hd; contradiction).
  - destruct err as [err|]; cbn in Hd; [contradiction|].
    destruct Hd as [Hd|[]]; discriminate Hd.
  - destruct Hd as [Hd|[]]; discriminate Hd.
  - destruct Hd as [Hd|[]]; discriminate Hd.
  - destruct Hd as [Hd|[]]. injection Hd as Hd. exists cs, ns. split; assumption.
Qed.

Lemma namespace_created_before_install_witness :
  exists cs ns,
    In (ENamespacesCreate cs ns None) (firstn 18 full_run_trace)
    /\ ns_Name ns = "kyverno".
Proof.
  apply (namespace_created_before_install "" "" "" "" env_ok 1
           (firstn 18 full_run_trace) (skipn 19 full_run_trace)
           (EInstallChart kyverno_handle (kyvernoSpec) None)
           OpInstall kyverno_handle kyvernoSpec).
  - vm_compute. reflexivity.
  - reflexivity.
  - discriminate.
Defined.

(** X5 -- a repository is registered before a chart of it is installed: in
    every run, each chart install comes after a registration, returned
    without error, of the repository named by the part of the chart name
    before the slash. *)
Theorem repository_registered_before_install (Y1 Y2 Y3 Y4 : string) (env : Env)
        (fuel : nat) (pre post : list Event) (e : Event) (op : InstallOp)
        (c : HelmClient) (spec : ChartSpec) :
  trace (snd (main Y1 Y2 Y3 Y4 env fuel init)) = pre ++ e :: post ->
  install_of e = Some (op, c, spec) ->
  exists h entry,
    In (EAddOrUpdateChartRepo h entry None) pre
    /\ entry_Name entry = chart_repo (ChartName spec).
Proof.
  intros Htr He.
  destruct (install_dependencies Y1 Y2 Y3 Y4 env fuel pre post e op c spec Htr He)
    as [Hin _].
  unfold deps in Hin. apply in_flat_map in Hin as (e' & He' & Hd).
  destruct e' as [| | | | | | |h entry [err|]| | |cs ns [err|]| |]; cbn in Hd;
    try contradiction.
  - destruct Hd as [Hd|[]]. injection Hd as Hd. exists h, entry. split; assumption.
  - destruct Hd as [Hd|[]]; discriminate Hd.
  - destruct Hd as [Hd|[]]; discriminate Hd.
  - destruct Hd as [Hd|[]]; discriminate Hd.
Qed.

Lemma repository_registered_before_install_witness :
  exists h entry,
    In (EAddOrUpdateChartRepo h entry None) (firstn 18 full_run_trace)
    /\ entry_Name entry = "kyverno".
Proof.
  apply (repository_registered_before_install "" "" "" "" env_ok 1
           (firstn 18 full_run_trace) (skipn 19 full_run_trace)
           (EInstallChart kyverno_handle (kyvernoSpec) None)
           OpInstall kyverno_handle kyvernoSpec).
  - vm_compute. reflexivity.
  - reflexivity.
Defined.

(** X6 -- every chart install blocks until its workloads are ready: in
    every run, the spec of each chart install, through either operation,
    sets Wait and WaitForJobs and a timeout of at least two and at most
    fifteen minutes. *)
Theorem installs_wait_for_readiness (Y1 Y2 Y3 Y4 : string) (env : Env) (fuel : nat)
        (op : InstallOp) (c : HelmClient) (spec : ChartSpec) :
  In (op, c, spec) (installs (trace (snd (main Y1 Y2 Y3 Y4 env fuel init)))) ->
  Wait spec = true /\ WaitForJobs spec = true
  /\ (2 * Minute <= Timeout spec <= 15 * Minute)%Z.
Proof.
  intros Hin.
  destruct (main_run_shape Y1 Y2 Y3 Y4 env fuel) as (_ & _ & Hw & _).
  rewrite forallb_forall in Hw. specialize (Hw _ Hin). unfold spec_waits in Hw.
  cbn [snd] in Hw.
  apply andb_prop in Hw as [Hw H4]. apply andb_prop in Hw as [Hw H3].
  apply andb_prop in Hw as [H1 H2].
  apply Z.leb_le in H3, H4. auto.
Qed.

Lemma installs_wait_for_readiness_witness :
  Wait kyvernoSpec = true /\ WaitForJobs kyvernoSpec = true
  /\ (2 * Minute <= Timeout kyvernoSpec <= 15 * Minute)%Z.
Proof.
  apply (installs_wait_for_readiness "" "" "" "" env_ok 1 OpInstall kyverno_handle).
  vm_compute. tauto.
Defined.

(** X7 -- the discovery socket is closed whenever it was opened: in every
    run the address discovery dials at most once, and the connection is
    closed exactly as many times as a dial succeeded; a failed dial is
    followed by no close. *)
Theorem discovery_socket_closed (Y1 Y2 Y3 Y4 : string) (env : Env) (fuel : nat) :
  ncalls KDial (trace (snd (main Y1 Y2 Y3 Y4 env fuel init))) <= 1
  /\ ncalls KConnClose (trace (snd (main Y1 Y2 Y3 Y4 env fuel init)))
     = length (dialed (trace (snd (main Y1 Y2 Y3 Y4 env fuel init)))).
Proof.
  destruct (main_run_shape Y1 Y2 Y3 Y4 env fuel) as (_ & _ & _ & [H1 H2] & _).
  split; assumption.
Qed.

Lemma filter_length_pos {A} (p : A -> bool) (l : list A) :
  0 < length (filter p l) <-> exists x, In x l /\ p x = true.
Proof.
  split.
  - destruct (filter p l) as [|x r] eqn:E; cbn; [lia|]. intros _.
    exists x. apply filter_In. rewrite E. now left.
  - intros (x & Hin & Hp).
    assert (H : In x (filter p l)) by (apply filter_In; auto).
    destruct (filter p l); [contradiction | cbn; lia].
Qed.

(** X8 -- the log tells the outcome: the line "Successfully initialized
    Kubernetes Cluster" is logged exactly when [main] returns normally, a
    fatal entry is logged exactly when the process exits, and no run logs
    more than one fatal entry. *)
Theorem log_tells_outcome (Y1 Y2 Y3 Y4 : string) (env : Env) (fuel : nat) :
  (fst (main Y1 Y2 Y3 Y4 env fuel init) = Ret tt
   <-> In (LPrintln success_message) (logs (snd (main Y1 Y2 Y3 Y4 env fuel init))))
  /\ (fst (main Y1 Y2 Y3 Y4 env fuel init) = Exit 1%Z
      <-> exists format args,
            In (LFatalf format args) (logs (snd (main Y1 Y2 Y3 Y4 env fuel init))))
  /\ length (filter is_fatal (logs (snd (main Y1 Y2 Y3 Y4 env fuel init)))) <= 1.
Proof.
  destruct (main_run_shape Y1 Y2 Y3 Y4 env fuel) as (_ & _ & _ & _ & [Hf Hs] & _).
  assert (Hexit : forall c, fst (main Y1 Y2 Y3 Y4 env fuel init) = Exit c -> c = 1%Z).
  { intros c Hc.
    destruct (main_fail_fast Y1 Y2 Y3 Y4 env fuel)
      as [[_ Hne]|(_ & _ & _ & _ & _ & _ & _ & _ & Ho & _)].
    - now elim (Hne c).
    - rewrite Ho in Hc. now injection Hc as <-. }
  destruct (fst (main Y1 Y2 Y3 Y4 env fuel init)) as [[]|c|] eqn:Eo;
    cbn [fatal_count success_count] in Hf, Hs.
  - split; [|split].
    + split; [intros _|reflexivity].
      assert (H : 0 < length (filter is_success (logs (snd (main Y1 Y2 Y3 Y4 env fuel init)))))
        by lia.
      apply filter_length_pos in H as (x & Hin & Hx).
      destruct x as [s| |]; try discriminate Hx.
      apply String.eqb_eq in Hx. now subst s.
    + split; [discriminate|]. intros (f & a & Hin).
      assert (H : 0 < length (filter is_fatal (logs (snd (main Y1 Y2 Y3 Y4 env fuel init)))))
        by (apply filter_length_pos; exists (LFatalf f a); auto).
      lia.
    + lia.
  - split; [|split].
    + split; [discriminate|]. intros Hin.
      assert (H : 0 < length (filter is_success (logs (snd (main Y1 Y2 Y3 Y4 env fuel init)))))
        by (apply filter_length_pos; exists (LPrintln success_message);
            split; [exact Hin | apply String.eqb_refl]).
      lia.
    + rewrite (Hexit c eq_refl). split; [intros _|reflexivity].
      assert (H : 0 < length (filter is_fatal (logs (snd (main Y1 Y2 Y3 Y4 env fuel init)))))
        by lia.
      apply filter_length_pos in H as (x & Hin & Hx).
      destruct x as [|f a|f a]; try discriminate Hx. now exists f, a.
    + lia.
  - split; [|split].
    + split; [discriminate|]. intros Hin.
      assert (H : 0 < length (filter is_success (logs (snd (main Y1 Y2 Y3 Y4 env fuel init)))))
        by (apply filter_length_pos; exists (LPrintln success_message);
            split; [exact Hin | apply String.eqb_refl]).
      lia.
    + split; [discriminate|]. intros (f & a & Hin).
      assert (H : 0 < length (filter is_fatal (logs (snd (main Y1 Y2 Y3 Y4 env fuel init)))))
        by (apply filter_length_pos; exists (LFatalf f a); auto).
      lia.
    + lia.
Qed.

Lemma Clientset_eqb_eq (a b : Clientset) : Clientset_eqb a b = true -> a = b.
Proof.
  destruct a as [[m1 p1]], b as [[m2 p2]]. unfold Clientset_eqb. cbn.
  intros H. apply andb_prop in H as [H1 H2].
  apply String.eqb_eq in H1, H2. now subst.
Qed.

(** X9 -- one cluster client, one registration handle: in every run, every
    pod listing goes through the client built from
    /etc/kubernetes/admin.conf and asks for namespace "kube-system", every
    namespace creation goes through that same client, and every repository
    registration goes through a Helm handle of namespace "default". *)
Theorem calls_go_through_the_built_clients (Y1 Y2 Y3 Y4 : string) (env : Env) (fuel : nat) :
  (forall cs ns items err,
      In (EPodsList cs ns items err) (trace (snd (main Y1 Y2 Y3 Y4 env fuel init))) ->
      cs = the_client /\ ns = "kube-system")
  /\ (forall cs ns err,
         In (ENamespacesCreate cs ns err) (trace (snd (main Y1 Y2 Y3 Y4 env fuel init))) ->
         cs = the_client)
  /\ (forall h entry err,
         In (EAddOrUpdateChartRepo h entry err)
            (trace (snd (main Y1 Y2 Y3 Y4 env fuel init))) ->
         opt_Namespace (hc_options h) = "default").
Proof.
  destruct (main_run_shape Y1 Y2 Y3 Y4 env fuel) as (_ & _ & _ & _ & _ & _ & Hu).
  rewrite forallb_forall in Hu.
  split; [|split].
  - intros cs ns items err Hin. specialize (Hu _ Hin). cbn in Hu.
    apply andb_prop in Hu as [H1 H2].
    split; [exact (Clientset_eqb_eq _ _ H1) | now apply String.eqb_eq].
  - intros cs ns err Hin. specialize (Hu _ Hin). cbn in Hu.
    exact (Clientset_eqb_eq _ _ Hu).
  - intros h entry err Hin. specialize (Hu _ Hin). cbn in Hu.
    now apply String.eqb_eq.
Qed.

Lemma calls_go_through_the_built_clients_witness :
  opt_Namespace (hc_options (mkHelmClient
    (mkOptions "default" "/tmp/.helmcache" "/tmp/.helmrepo" false true "" [Byte.x61])))
  = "default".
Proof.
  apply (proj2 (proj2 (calls_go_through_the_built_clients "" "" "" "" env_ok 1))
           _ kyvernoRepo None).
  vm_compute. tauto.
Defined.

(** ** Further properties of the helpers *)

Lemma ncalls_sleep_retry_events env cs c n :
  ncalls KSleep (retry_events env cs c n) = n.
Proof.
  revert c; induction n as [|n IH]; intros c; [reflexivity|].
  rewrite retry_events_S. unfold ncalls in *. cbn. now rewrite IH.
Qed.

Lemma length_retry_logs env c n : length (retry_logs env c n) = n.
Proof. unfold retry_logs. now rewrite length_map, length_seq. Qed.

(** X10 -- the footprint of the readiness loop: whatever the listings
    return and however long it runs, the loop only lists pods of
    "kube-system" through the client it was given and sleeps, leaves the
    cached credentials alone, logs one line per listing, and sleeps after
    every listing except the ready one. *)
Theorem poll_footprint (env : Env) (fuel : nat) (cs : Clientset) (st : State) :
  exists ps ls,
    snd (poll env fuel cs st)
    = mkState (trace st ++ ps) (logs st ++ ls) (kubeConfig st)
    /\ forallb is_polling ps = true
    /\ forallb (polls_with cs) ps = true
    /\ length ls = ncalls KPodsList ps
    /\ ncalls KSleep ps + success_count (fst (poll env fuel cs st)) = ncalls KPodsList ps.
Proof.
  destruct (first_ready env (ncalls KPodsList (trace st)) fuel)
    as [(n & Hn & Hlt & Hr)|Hall].
  - rewrite (poll_ready env cs n); auto. cbn [fst snd success_count].
    eexists. eexists. split; [reflexivity|].
    split; [rewrite forallb_app, retry_events_polling; reflexivity|].
    split; [rewrite forallb_app, retry_events_polls_with; cbn;
            now rewrite Clientset_eqb_refl|].
    rewrite !ncalls_app, ncalls_retry_events, ncalls_sleep_retry_events.
    rewrite List.length_app, length_retry_logs. cbn. lia.
  - rewrite poll_starved by exact Hall. cbn [fst snd success_count].
    eexists. eexists. split; [reflexivity|].
    split; [apply retry_events_polling|].
    split; [apply retry_events_polls_with|].
    rewrite ncalls_retry_events, ncalls_sleep_retry_events, length_retry_logs. lia.
Qed.

(** [initKubeConf] on an empty cache: one read; its error is fatal, its
    blob becomes the cache. *)
Lemma initKubeConf_cold (env : Env) (tr : list Event) (lg : list LogEntry) :
  initKubeConf env (mkState tr lg [])
  = match read_file env (ncalls KReadFile tr) admin_conf with
    | (data, Some e) =>
        (Exit 1%Z,
         mkState (tr ++ [EReadFile admin_conf data (Some e)])
                 (lg ++ [LFatalf "Failed to read kubeconfig file: %s\n" [AErr (Some e)]])
                 [])
    | (data, None) =>
        (Ret tt, mkState (tr ++ [EReadFile admin_conf data None]) lg data)
    end.
Proof.
  cbv [initKubeConf bind getKubeConfig when ReadFile history emit ret setKubeConfig
       Fatalf isErr kubeConfig trace logs length Nat.eqb].
  destruct (read_file env (ncalls KReadFile tr) admin_conf) as [data [e|]]; reflexivity.
Qed.

(** X11 -- the credentials cache: with a non-empty cache [initKubeConf]
    does nothing at all (no read, no log, state unchanged); and unless the
    read returns an empty blob without error, calling it twice in a row is
    the same as calling it once. *)
Theorem initKubeConf_idempotent (env : Env) (st : State) :
  (kubeConfig st <> [] -> initKubeConf env st = (Ret tt, st))
  /\ (read_file env (ncalls KReadFile (trace st)) admin_conf <> ([], None) ->
      bind (initKubeConf env) (fun _ => initKubeConf env) st = initKubeConf env st).
Proof.
  destruct st as [tr lg kc].
  assert (Hwarm : forall tr' lg' kc', kc' <> [] ->
            initKubeConf env (mkState tr' lg' kc') = (Ret tt, mkState tr' lg' kc')).
  { intros tr' lg' [|b kc'] H; [now elim H | reflexivity]. }
  split; [apply Hwarm|].
  cbn [trace]. intros Hne. unfold bind.
  destruct kc as [|b kc].
  - rewrite initKubeConf_cold.
    destruct (read_file env (ncalls KReadFile tr) admin_conf) as [data [e|]];
      [reflexivity|].
    destruct data as [|d data]; [now elim Hne|].
    apply Hwarm. discriminate.
  - rewrite Hwarm by discriminate. apply Hwarm. discriminate.
Qed.

Lemma initKubeConf_idempotent_witness :
  bind (initKubeConf env_ok) (fun _ => initKubeConf env_ok) init = initKubeConf env_ok init.
Proof.
  apply (proj2 (initKubeConf_idempotent env_ok init)). discriminate.
Defined.

(** X12 -- what the result of [InstallSpecWithNSClient] means: it returns
    nil only after an install, through a handle of the requested namespace,
    that returned nil; it returns an error either from the construction of
    the handle, and then no install was attempted, or from the install
    itself; it ends the process, with status 1, only when reading the
    credentials failed, before any handle was built. *)
Theorem InstallSpecWithNSClient_result (env : Env) (ns : string) (spec : ChartSpec)
        (st : State) :
  install_result ns spec st
    (fst (InstallSpecWithNSClient env ns spec st))
    (snd (InstallSpecWithNSClient env ns spec st)).
Proof.
  destruct st as [tr lg kc].
  change (wp (InstallSpecWithNSClient env ns spec)
             (install_result ns spec (mkState tr lg kc)) (mkState tr lg kc)).
  unfold InstallSpecWithNSClient. wp_run.
  all: unfold install_result; cbn [trace].
  all: repeat match goal with
              | |- _ /\ _ => split
              | |- @eq Z _ _ => reflexivity
              | |- @eq nat _ _ => rewrite ?ncalls_snoc; reflexivity
              | |- exists pre data e, _ ++ [EReadFile _ _ _] = _ =>
                  do 3 eexists; reflexivity
              end.
  all: try (left; do 2 eexists; split;
            [reflexivity | rewrite ?ncalls_snoc; reflexivity]).
  all: try (right; do 2 eexists; split; reflexivity).
  all: try (do 2 eexists; split; reflexivity).
Qed.

(** X13 -- the cilium values in every case of the template: without the
    placeholder the payload is the template unchanged, whatever the
    address; with it, only the first occurrence is replaced by the address
    and the text before and after is kept as it is. *)
Theorem cilium_values_cases (CiliumYaml defaultIp : string) :
  (Index CiliumYaml placeholder = None ->
   ValuesYaml (ciliumSpec CiliumYaml defaultIp) = CiliumYaml)
  /\ (forall j,
         Index CiliumYaml placeholder = Some j ->
         ValuesYaml (ciliumSpec CiliumYaml defaultIp)
         = (take j CiliumYaml ++ defaultIp ++ drop (j + 7) CiliumYaml)%string).
Proof.
  cbn [ciliumSpec ValuesYaml]. unfold Replace. change "K8SHOST" with placeholder.
  destruct (String.eqb_spec placeholder defaultIp) as [<-|Hne]; cbn [orb].
  - split; [reflexivity|]. intros j Hj.
    apply Index_sound in Hj. unfold occurs_at in Hj.
    rewrite <- (take_drop j CiliumYaml) at 1. f_equal.
    rewrite <- drop_drop. apply (prefix_split placeholder). exact Hj.
  - split.
    + intros Hnone.
      change (replace_upto 1 CiliumYaml placeholder defaultIp = CiliumYaml).
      cbn [replace_upto]. now rewrite Hnone.
    + intros j Hj.
      change (replace_upto 1 CiliumYaml placeholder defaultIp
              = (take j CiliumYaml ++ defaultIp ++ drop (j + 7) CiliumYaml)%string).
      cbn [replace_upto]. now rewrite Hj.
Qed.

Lemma cilium_values_cases_witness :
  ValuesYaml (ciliumSpec "k8sServiceHost: localhost" "10.0.0.5") = "k8sServiceHost: localhost"
  /\ ValuesYaml (ciliumSpec "a: K8SHOST; b: K8SHOST" "10.0.0.5") = "a: 10.0.0.5; b: K8SHOST".
Proof.
  split.
  - apply (proj1 (cilium_values_cases "k8sServiceHost: localhost" "10.0.0.5")).
    reflexivity.
  - apply (proj2 (cilium_values_cases "a: K8SHOST; b: K8SHOST" "10.0.0.5") 3).
    reflexivity.
Defined.
